(** * The extractive summarizer of [code/14_nlp_class.py]

    A shallow embedding of [summarize] (lines 189-221) and of the Python
    primitives it relies on, followed by the properties of the sentence
    scorer and of the two ranked lists it reports.

    Conventions of the embedding.
    - Python [str] values are [string]; [len] is [String.length].
    - The weights held by the document-term matrix [dtm] and the sentence
      scores are rationals ([Q]); [float(n)] is the injection of an integer.
      Numeric equality of scores is [Qeq] (written [==]).
    - Python exceptions are the constructors of [exn]; code that may raise
      lives in the [result] monad.
    - The NLTK tokenizers, NumPy's generator and the module-level objects
      [reviews], [features] and [dtm] are parameters of the section
      [Summarizer]. *)

From Stdlib Require Import List String Ascii Bool Arith ZArith QArith Lia Lqa.
From Stdlib Require Import Sorting.Sorted Sorting.Permutation.
Import ListNotations.

Local Open Scope nat_scope.
Local Open Scope list_scope.

(** ** Python primitives *)

Module Py.

Inductive exn : Type :=
| IndexError
| ValueError
| ZeroDivisionError.

Inductive result (A : Type) : Type :=
| Ok (a : A)
| Raise (e : exn).

Arguments Ok {A} a.
Arguments Raise {A} e.

Definition bind {A B : Type} (c : result A) (k : A -> result B) : result B :=
  match c with
  | Ok a => k a
  | Raise e => Raise e
  end.

(** [for x in l: st = body st x], stopping at the first exception. *)
Fixpoint for_each {S A : Type} (body : S -> A -> result S)
         (l : list A) (st : S) : result S :=
  match l with
  | [] => Ok st
  | x :: l' => bind (body st x) (for_each body l')
  end.

(** [l[i]] for a list and a non-negative index. *)
Definition getitem {A : Type} (l : list A) (i : nat) : result A :=
  match nth_error l i with
  | Some a => Ok a
  | None => Raise IndexError
  end.

(** [x in l] for a list of strings. *)
Definition contains (x : string) (l : list string) : bool :=
  existsb (String.eqb x) l.

(** [l.index(x)]: the first position of [x], or [ValueError]. *)
Fixpoint index (x : string) (l : list string) : result nat :=
  match l with
  | [] => Raise ValueError
  | y :: l' =>
      if String.eqb y x then Ok 0
      else bind (index x l') (fun i => Ok (S i))
  end.

(** [float(n)] for a non-negative integer. *)
Definition float (n : nat) : Q := inject_Z (Z.of_nat n).

(** [a / b] with a float denominator. *)
Definition truediv (a b : Q) : result Q :=
  if Qeq_bool b 0 then Raise ZeroDivisionError else Ok (a / b)%Q.

(** A document-term matrix, row by row, and [m[i, j]]. *)
Definition matrix : Type := list (list Q).

Definition matrix_getitem (m : matrix) (i j : nat) : result Q :=
  bind (getitem m i) (fun row => getitem row j).

(** Comparison of [(float, str)] tuples: the first components decide
    unless they are equal, then the second ones do. *)
Definition tuple_lt (x y : Q * string) : bool :=
  if Qeq_bool (fst x) (fst y) then String.ltb (snd x) (snd y)
  else negb (Qle_bool (fst y) (fst x)).

(** [sorted(l)]: a stable sort that only asks [<].  Each element is
    placed, left to right, after the elements of the sorted prefix that
    are not greater than it. *)
Fixpoint insort (x : Q * string) (l : list (Q * string)) : list (Q * string) :=
  match l with
  | [] => [x]
  | y :: l' => if tuple_lt x y then x :: l else y :: insort x l'
  end.

Definition sorted (l : list (Q * string)) : list (Q * string) :=
  fold_left (fun acc x => insort x acc) l [].

(** [sorted(l, reverse=True)]: the list is reversed, sorted and reversed
    again, which keeps the sort stable. *)
Definition sorted_reverse (l : list (Q * string)) : list (Q * string) :=
  rev (sorted (rev l)).

(** [re.search(r'^[a-zA-Z]+', token)]: the match is the run of letters the
    token starts with, and there is none when that run is empty. *)
Definition is_letter (c : ascii) : bool :=
  let n := nat_of_ascii c in
  ((65 <=? n) && (n <=? 90)) || ((97 <=? n) && (n <=? 122)).

Fixpoint letters_prefix (s : string) : string :=
  match s with
  | EmptyString => EmptyString
  | String c s' => if is_letter c then String c (letters_prefix s')
                   else EmptyString
  end.

Definition search_letters (token : string) : option string :=
  match letters_prefix token with
  | EmptyString => None
  | found => Some found
  end.

(** [collections.Counter]: a dictionary from elements to counts, kept as
    the list of its items.  [Counter(l)] counts the elements of [l] one by
    one and [c[x]] is zero for a missing element. *)
Definition counter : Type := list (string * nat).

Fixpoint counter_incr (x : string) (c : counter) : counter :=
  match c with
  | [] => [(x, 1)]
  | (y, n) :: c' =>
      if String.eqb y x then (y, n + 1) :: c' else (y, n) :: counter_incr x c'
  end.

Definition Counter (l : list string) : counter :=
  fold_left (fun c x => counter_incr x c) l [].

Fixpoint counter_get (c : counter) (x : string) : nat :=
  match c with
  | [] => 0
  | (y, n) :: c' => if String.eqb y x then n else counter_get c' x
  end.

(** Comparison of [(str, int)] tuples, and [sorted] on the items of a
    counter. *)
Definition item_lt (x y : string * nat) : bool :=
  if String.eqb (fst x) (fst y) then snd x <? snd y
  else String.ltb (fst x) (fst y).

Fixpoint insort_item (x : string * nat) (l : list (string * nat))
  : list (string * nat) :=
  match l with
  | [] => [x]
  | y :: l' => if item_lt x y then x :: l else y :: insort_item x l'
  end.

Definition sorted_items (l : list (string * nat)) : list (string * nat) :=
  fold_left (fun acc x => insort_item x acc) l [].

(** A child of the tree returned by [nltk.ne_chunk]: a tagged word, or a
    subtree with a label and tagged words for leaves.  Only the subtree
    has the attribute [label]. *)
Inductive chunk : Type :=
| Tagged (word tag : string)
| Tree (label : string) (leaves : list (string * string)).

Definition has_label (c : chunk) : bool :=
  match c with
  | Tagged _ _ => false
  | Tree _ _ => true
  end.

End Py.

Import Py.

Notation "x <- c ;; k" := (Py.bind c (fun x => k))
  (at level 61, c at next level, right associativity).
Notation "' pat <- c ;; k" := (Py.bind c (fun x => match x with pat => k end))
  (at level 61, pat pattern, c at next level, right associativity).

(** ** The ranking as the specification words it

    "Stable ordering - ties broken by original sentence order": a stable
    sort whose key is the score alone. *)

Module Spec.

Definition score_lt (x y : Q * string) : bool :=
  negb (Qle_bool (fst y) (fst x)).

Fixpoint insert_ascending (x : Q * string) (l : list (Q * string))
  : list (Q * string) :=
  match l with
  | [] => [x]
  | y :: l' => if score_lt x y then x :: l else y :: insert_ascending x l'
  end.

Fixpoint insert_descending (x : Q * string) (l : list (Q * string))
  : list (Q * string) :=
  match l with
  | [] => [x]
  | y :: l' => if score_lt y x then x :: l else y :: insert_descending x l'
  end.

Definition lowest (sent_scores : list (Q * string)) : list (Q * string) :=
  firstn 3 (fold_left (fun acc x => insert_ascending x acc) sent_scores []).

Definition highest (sent_scores : list (Q * string)) : list (Q * string) :=
  firstn 3 (fold_left (fun acc x => insert_descending x acc) sent_scores []).

End Spec.

(** ** Sample collaborators and corpora

    Stand-ins for the external tokenizers and generator, used to run the
    summarizer on concrete texts.  On the sample texts below they split as
    NLTK does: a sentence ends at a full stop, words are separated by
    blanks and a full stop is a token of its own. *)

Module Demo.

Definition flush (acc : string) : list string :=
  match acc with
  | EmptyString => []
  | _ => [acc]
  end.

Definition push (acc : string) (c : ascii) : string :=
  (acc ++ String c EmptyString)%string.

Fixpoint sentences_from (acc s : string) : list string :=
  match s with
  | EmptyString => flush acc
  | String c rest =>
      if Ascii.eqb c "." then push acc c :: sentences_from EmptyString rest
      else if Ascii.eqb c " " && String.eqb acc EmptyString
           then sentences_from EmptyString rest
           else sentences_from (push acc c) rest
  end.

Definition sent_tokenize (text : string) : list string :=
  sentences_from EmptyString text.

Fixpoint words_from (acc s : string) : list string :=
  match s with
  | EmptyString => flush acc
  | String c rest =>
      if Ascii.eqb c " " then flush acc ++ words_from EmptyString rest
      else if Ascii.eqb c "."
           then flush acc ++ ["."%string] ++ words_from EmptyString rest
           else words_from (push acc c) rest
  end.

Definition word_tokenize (sentence : string) : list string :=
  words_from EmptyString sentence.

(** A generator whose state is a counter. *)
Definition RandomState : Type := nat.

Definition randint (g : RandomState) (low high : nat)
  : result (nat * RandomState) :=
  if high <=? low then Raise ValueError
  else Ok (low + g mod (high - low), S g).

(** A corpus of two reviews with its vocabulary, in lower case as the
    vectorizer builds it, and illustrative rational weights.  The second
    review has only short sentences. *)
Definition reviews : list string :=
  [ "Zebras zoom past. Hello. Apples abound here. Zebras zoom. Go on.";
    "Go on. Hello." ]%string.

Definition features : list string :=
  [ "abound"; "apples"; "hello"; "past"; "zebras"; "zoom" ]%string.

Definition dtm : matrix :=
  [ [ 2 # 5; 1 # 5; 1 # 5; 1 # 5; 4 # 5; 1 # 5 ];
    [ 0; 0; 1; 0; 0; 0 ] ]%Q.

(** A corpus of one review of two sentences.  Its four terms occur once
    each, so every weight of the normalised row is one half; the tokens of
    the text are capitalised and the vocabulary is not. *)
Definition zoo_reviews : list string :=
  [ "Zebras Zoom. Apples Abound." ]%string.

Definition zoo_features : list string :=
  [ "abound"; "apples"; "zebras"; "zoom" ]%string.

Definition zoo_dtm : matrix :=
  [ [ 1 # 2; 1 # 2; 1 # 2; 1 # 2 ] ]%Q.

(** A stemmer that drops one final "s", a tagger that marks capitalised
    words and a chunker that makes an entity of each marked word. *)
Fixpoint drop_final_s (s : string) : string :=
  match s with
  | EmptyString => EmptyString
  | String c EmptyString => if Ascii.eqb c "s" then EmptyString else s
  | String c s' => String c (drop_final_s s')
  end.

Definition stem (token : string) : string := drop_final_s token.

Definition capitalised (word : string) : bool :=
  match word with
  | EmptyString => false
  | String c _ => (65 <=? nat_of_ascii c) && (nat_of_ascii c <=? 90)
  end.

Definition pos_tag (tokens : list string) : list (string * string) :=
  map (fun word => (word, if capitalised word then "NNP" else "NN")%string)
      tokens.

Definition ne_chunk (tagged : list (string * string)) : list chunk :=
  map (fun wt => if String.eqb (snd wt) "NNP"
                 then Tree "PERSON" [wt]
                 else Tagged (fst wt) (snd wt))
      tagged.

(** Tokens of a text and a list of stopwords. *)
Definition tokens : list string :=
  [ "The"; "wines"; "are"; "fine"; ","; "the"; "2003"; "wines"; "is";
    "wine"; "." ]%string.

Definition stopwords : list string := [ "the"; "is"; "are" ]%string.

(** A matrix too narrow for the vocabulary of the first corpus. *)
Definition narrow_dtm : matrix := [ [ 1 # 2; 1 # 2 ]; [ 0; 0 ] ]%Q.

(** A corpus of one review with five long sentences, and a matrix that
    differs from the one of the first corpus in its second row only. *)
Definition long_reviews : list string :=
  [ "Zebras zoom past. Apples abound here. Zebras zoom. Past apples zoom. Hello zebras." ]%string.

Definition long_dtm : matrix :=
  [ [ 2 # 5; 1 # 5; 1 # 5; 1 # 5; 4 # 5; 1 # 5 ] ]%Q.

Definition other_dtm : matrix :=
  [ [ 2 # 5; 1 # 5; 1 # 5; 1 # 5; 4 # 5; 1 # 5 ];
    [ 1 # 2; 0; 1 # 2; 0; 0; 0 ] ]%Q.

End Demo.

(** ** The rest of the walkthrough *)

Section Walkthrough.

(** [nltk.sent_tokenize], [nltk.word_tokenize],
    [SnowballStemmer('english').stem], [nltk.pos_tag] and
    [nltk.ne_chunk]. *)
Variable sent_tokenize : string -> list string.
Variable word_tokenize : string -> list string.
Variable stem : string -> string.
Variable pos_tag : list string -> list (string * string).
Variable ne_chunk : list (string * string) -> list chunk.

(** Line 49: the tokens that start with a letter. *)
Definition clean_tokens (tokens : list string) : list string :=
  filter (fun token => match search_letters token with
                       | Some _ => true
                       | None => false
                       end) tokens.

(** Lines 54-56: [sorted(c.items())[:25]] for [c = Counter(clean_tokens)]. *)
Definition token_counts (clean : list string) : list (string * nat) :=
  firstn 25 (sorted_items (Counter clean)).

(** Line 80. *)
Definition stemmed_tokens (clean : list string) : list string :=
  map stem clean.

(** Line 117. *)
Definition stemmed_stops (stopwords : list string) : list string :=
  map stem stopwords.

(** Line 120: the stemmed tokens that are not stemmed stopwords, stemmed
    once more. *)
Definition stemmed_tokens_no_stop (stopwords stemmed : list string)
  : list string :=
  map stem
      (filter (fun t => negb (contains t (stemmed_stops stopwords))) stemmed).

(** Lines 134-144: [entities] is extended sentence by sentence with the
    chunks that have a label. *)
Definition extract_entities (text : string) : list chunk :=
  fold_left
    (fun entities sentence =>
       let chunks := ne_chunk (pos_tag (word_tokenize sentence)) in
       entities ++ filter has_label chunks)
    (sent_tokenize text) [].

(** Not greater as [(str, int)] tuples. *)
Definition item_le (x y : string * nat) : Prop := item_lt y x = false.

End Walkthrough.

(** ** The summarizer *)

(** What one call reports: the ranked [(score, sentence)] pairs whose
    sentences are printed, and everything that was printed, one entry per
    [print] statement. *)
Record Summary : Type := mkSummary {
  lowest : list (Q * string);
  highest : list (Q * string);
  printed : list string
}.

Definition newline : string := String (ascii_of_nat 10) EmptyString.

Definition LOWEST : string := (newline ++ "LOWEST:" ++ newline)%string.
Definition HIGHEST : string := (newline ++ "HIGHEST:" ++ newline)%string.

Section Summarizer.

(** [nltk.sent_tokenize] and [nltk.word_tokenize]. *)
Variable sent_tokenize : string -> list string.
Variable word_tokenize : string -> list string.

(** [np.random.randint(low, high)] on the generator's state. *)
Variable RandomState : Type.
Variable randint : RandomState -> nat -> nat -> result (nat * RandomState).

(** The corpus, the vocabulary of the vectorizer and its matrix. *)
Variable reviews : list string.
Variable features : list string.
Variable dtm : matrix.

(** Lines 206-209: one turn of the loop over the tokens. *)
Definition score_token (review_id : nat) (st : Q * nat) (token : string)
  : result (Q * nat) :=
  let '(score, token_count) := st in
  if contains token features then
    j <- index token features ;;
    w <- matrix_getitem dtm review_id j ;;
    Ok ((score + w)%Q, token_count + 1)
  else Ok (score, token_count).

(** Lines 201-211: the pair appended for one retained sentence. *)
Definition score_sentence (review_id : nat) (sentence : string)
  : result (Q * string) :=
  let tokens := word_tokenize sentence in
  '(score, token_count) <- for_each (score_token review_id) tokens (0%Q, 0) ;;
  q <- truediv score (float (token_count + 1)) ;;
  Ok (q, sentence).

(** Lines 198-211: one turn of the loop over the sentences. *)
Definition visit_sentence (review_id : nat) (sent_scores : list (Q * string))
           (sentence : string) : result (list (Q * string)) :=
  if 6 <? String.length sentence then
    p <- score_sentence review_id sentence ;;
    Ok (sent_scores ++ [p])
  else Ok sent_scores.

(** Lines 196-211: [sent_scores] when the loop is over. *)
Definition sentence_scores (review_id : nat) (review_text : string)
  : result (list (Q * string)) :=
  for_each (visit_sentence review_id) (sent_tokenize review_text) [].

(** Lines 213-221: the two slices and what is printed. *)
Definition report (sent_scores : list (Q * string)) : Summary :=
  let lo := firstn 3 (sorted sent_scores) in
  let hi := firstn 3 (sorted_reverse sent_scores) in
  {| lowest := lo;
     highest := hi;
     printed := [LOWEST] ++ map snd lo ++ [HIGHEST] ++ map snd hi |}.

(** Lines 189-221. *)
Definition summarize (g : RandomState) : result (Summary * RandomState) :=
  '(review_id, g') <- randint g 0 (List.length reviews) ;;
  review_text <- getitem reviews review_id ;;
  sent_scores <- sentence_scores review_id review_text ;;
  Ok (report sent_scores, g').

(** *** The score as the specification words it

    The tokens of the sentence found in the vocabulary, the weight at
    (document row, term column) of each, their running sum from zero, and
    the division by the number of found tokens plus one. *)

Fixpoint position (x : string) (l : list string) : nat :=
  match l with
  | [] => 0
  | y :: l' => if String.eqb y x then 0 else S (position x l')
  end.

Definition spec_weight (review_id : nat) (token : string) : Q :=
  nth (position token features) (nth review_id dtm []) 0%Q.

Definition spec_found (sentence : string) : list string :=
  filter (fun token => contains token features) (word_tokenize sentence).

Definition spec_score (review_id : nat) (sentence : string) : Q :=
  let found := spec_found sentence in
  (fold_left Qplus (map (spec_weight review_id) found) 0
   / float (List.length found + 1))%Q.

(** The sentences longer than six characters, in document order. *)
Definition spec_retained (review_text : string) : list string :=
  filter (fun sentence => 6 <? String.length sentence)
         (sent_tokenize review_text).

(** The matrix has one row per review and one column per term. *)
Definition matrix_consistent : Prop :=
  List.length dtm = List.length reviews /\
  Forall (fun row => List.length row = List.length features) dtm.

(** The row of the chosen review has a column for every term. *)
Definition row_covers (review_id : nat) : Prop :=
  List.length features <= List.length (nth review_id dtm []).

(** Every weight of the matrix is non-negative. *)
Definition weights_nonneg : Prop :=
  Forall (Forall (fun w => (0 <= w)%Q)) dtm.

(** No weight of the matrix exceeds [bound]. *)
Definition weights_at_most (bound : Q) : Prop :=
  Forall (Forall (fun w => (w <= bound)%Q)) dtm.

(** [x] is not greater than [y] as tuples: [sorted] may leave [x] before
    [y]. *)
Definition tuple_le (x y : Q * string) : Prop := tuple_lt y x = false.

(** The columns that scoring a sentence looks up are within the row. *)
Definition columns_in_row (review_id : nat) (sentence : string) : Prop :=
  Forall (fun token => position token features
                       < List.length (nth review_id dtm []))
         (spec_found sentence).

(** ** Facts about the Python primitives *)

Lemma bind_Ok_inv {A B : Type} (c : result A) (k : A -> result B) (b : B) :
  Py.bind c k = Ok b -> exists a, c = Ok a /\ k a = Ok b.
Proof.
  destruct c as [a | e]; simpl; intros H; [eauto | discriminate].
Qed.

Lemma index_position (x : string) (l : list string) :
  contains x l = true ->
  index x l = Ok (position x l) /\ position x l < List.length l.
Proof.
  induction l as [| y l IH]; simpl.
  - discriminate.
  - rewrite (String.eqb_sym x y).
    destruct (String.eqb y x) eqn:E; simpl.
    + intros _. split; [reflexivity | lia].
    + intros H. destruct (IH H) as [-> Hlt]. simpl. split; [reflexivity | lia].
Qed.

Lemma getitem_nth {A : Type} (l : list A) (i : nat) (d : A) :
  i < List.length l -> getitem l i = Ok (nth i l d).
Proof.
  intros H. unfold getitem.
  destruct (nth_error l i) as [a |] eqn:E.
  - now rewrite (nth_error_nth l i d E).
  - apply nth_error_None in E. lia.
Qed.

Lemma matrix_getitem_nth (m : matrix) (i j : nat) :
  j < List.length (nth i m []) ->
  matrix_getitem m i j = Ok (nth j (nth i m []) 0%Q).
Proof.
  intros H. unfold matrix_getitem.
  assert (Hi : i < List.length m).
  { destruct (Nat.lt_ge_cases i (List.length m)) as [Hlt | Hge]; [assumption |].
    rewrite (nth_overflow m [] Hge) in H. simpl in H. lia. }
  rewrite (getitem_nth m i [] Hi). simpl. now apply getitem_nth.
Qed.

Lemma float_succ_ge_1 (n : nat) : (1 <= float (n + 1))%Q.
Proof.
  unfold float, Qle. simpl. lia.
Qed.

Lemma truediv_float_succ (a : Q) (n : nat) :
  truediv a (float (n + 1)) = Ok (a / float (n + 1))%Q.
Proof.
  unfold truediv.
  destruct (Qeq_bool (float (n + 1)) 0) eqn:E; [| reflexivity].
  apply Qeq_bool_iff in E. unfold float, Qeq in E. simpl in E. lia.
Qed.

(** ** The loops in closed form *)

Lemma matrix_consistent_row_covers (review_id : nat) :
  matrix_consistent -> review_id < List.length reviews -> row_covers review_id.
Proof.
  intros [Hrows Hcols] Hid. unfold row_covers.
  rewrite Forall_forall in Hcols.
  rewrite (Hcols (nth review_id dtm [])); [lia |].
  apply nth_In. lia.
Qed.

Lemma score_token_closed (review_id : nat) (score : Q) (token_count : nat)
      (token : string) :
  row_covers review_id ->
  score_token review_id (score, token_count) token =
  Ok (if contains token features
      then ((score + spec_weight review_id token)%Q, token_count + 1)
      else (score, token_count)).
Proof.
  intros Hrow. unfold score_token.
  destruct (contains token features) eqn:E; [| reflexivity].
  destruct (index_position token features E) as [-> Hlt]. simpl.
  rewrite matrix_getitem_nth by (unfold row_covers in Hrow; lia).
  reflexivity.
Qed.

Lemma score_tokens_closed (review_id : nat) (tokens : list string) :
  row_covers review_id ->
  forall (score : Q) (token_count : nat),
    let found := filter (fun token => contains token features) tokens in
    for_each (score_token review_id) tokens (score, token_count) =
    Ok (fold_left Qplus (map (spec_weight review_id) found) score,
        token_count + List.length found).
Proof.
  intros Hrow. induction tokens as [| token tokens IH]; intros score token_count.
  - simpl. now rewrite Nat.add_0_r.
  - cbn [for_each]. rewrite (score_token_closed _ _ _ _ Hrow).
    cbn [Py.bind filter].
    destruct (contains token features).
    + rewrite IH. cbn [map fold_left List.length]. do 2 f_equal. lia.
    + apply IH.
Qed.

Lemma score_sentence_closed (review_id : nat) (sentence : string) :
  row_covers review_id ->
  score_sentence review_id sentence =
  Ok (spec_score review_id sentence, sentence).
Proof.
  intros Hrow. unfold score_sentence.
  rewrite (score_tokens_closed review_id _ Hrow). cbn [Py.bind].
  rewrite truediv_float_succ. reflexivity.
Qed.

Lemma visit_sentences_closed (review_id : nat) (sentences : list string) :
  row_covers review_id ->
  forall sent_scores : list (Q * string),
    for_each (visit_sentence review_id) sentences sent_scores =
    Ok (sent_scores ++
        map (fun sentence => (spec_score review_id sentence, sentence))
            (filter (fun sentence => 6 <? String.length sentence) sentences)).
Proof.
  intros Hrow.
  induction sentences as [| sentence sentences IH]; intros sent_scores.
  - simpl. now rewrite app_nil_r.
  - cbn [for_each filter]. unfold visit_sentence at 1.
    destruct (6 <? String.length sentence).
    + rewrite (score_sentence_closed _ _ Hrow). cbn [Py.bind].
      rewrite IH, <- app_assoc. reflexivity.
    + cbn [Py.bind]. apply IH.
Qed.

Lemma sentence_scores_closed (review_id : nat) (review_text : string) :
  row_covers review_id ->
  sentence_scores review_id review_text =
  Ok (map (fun sentence => (spec_score review_id sentence, sentence))
          (spec_retained review_text)).
Proof.
  intros Hrow. unfold sentence_scores.
  now rewrite (visit_sentences_closed _ _ Hrow).
Qed.

(** Whatever the matrix, the sentences that are scored are the long ones. *)
Lemma visit_sentences_retained (review_id : nat) (sentences : list string) :
  forall sent_scores out : list (Q * string),
    for_each (visit_sentence review_id) sentences sent_scores = Ok out ->
    map snd out =
    map snd sent_scores ++
    filter (fun sentence => 6 <? String.length sentence) sentences.
Proof.
  induction sentences as [| sentence sentences IH]; intros sent_scores out.
  - simpl. intros [= <-]. now rewrite app_nil_r.
  - cbn [for_each filter]. intros H.
    apply bind_Ok_inv in H. destruct H as [acc [Hvisit Hrest]].
    apply IH in Hrest. rewrite Hrest. unfold visit_sentence in Hvisit.
    destruct (6 <? String.length sentence).
    + apply bind_Ok_inv in Hvisit. destruct Hvisit as [[q s'] [Hscore Hacc]].
      injection Hacc as <-.
      unfold score_sentence in Hscore.
      apply bind_Ok_inv in Hscore. destruct Hscore as [[sc tc] [_ Hdiv]].
      apply bind_Ok_inv in Hdiv. destruct Hdiv as [q' [_ Hq]].
      injection Hq as _ <-.
      rewrite map_app, <- app_assoc. reflexivity.
    + injection Hvisit as <-. reflexivity.
Qed.

Lemma sentence_scores_sentences (review_id : nat) (review_text : string)
      (sent_scores : list (Q * string)) :
  sentence_scores review_id review_text = Ok sent_scores ->
  map snd sent_scores = spec_retained review_text.
Proof.
  intros H. apply visit_sentences_retained in H. exact H.
Qed.

Lemma summarize_unfold (g g' : RandomState) (review_id : nat)
      (review_text : string) :
  randint g 0 (List.length reviews) = Ok (review_id, g') ->
  nth_error reviews review_id = Some review_text ->
  summarize g =
  sent_scores <- sentence_scores review_id review_text ;;
  Ok (report sent_scores, g').
Proof.
  intros Hrand Htext. unfold summarize, getitem.
  rewrite Hrand. cbn [Py.bind]. now rewrite Htext.
Qed.

Lemma summarize_closed (g g' : RandomState) (review_id : nat)
      (review_text : string) :
  matrix_consistent ->
  randint g 0 (List.length reviews) = Ok (review_id, g') ->
  nth_error reviews review_id = Some review_text ->
  summarize g =
  Ok (report (map (fun sentence => (spec_score review_id sentence, sentence))
                  (spec_retained review_text)), g').
Proof.
  intros Hm Hrand Htext.
  rewrite (summarize_unfold _ _ _ _ Hrand Htext).
  rewrite sentence_scores_closed; [reflexivity |].
  apply matrix_consistent_row_covers; [assumption |].
  apply nth_error_Some. congruence.
Qed.

(** ** The order on tuples *)

Lemma ascii_compare_lt_trans (a b c : ascii) :
  Ascii.compare a b = Lt -> Ascii.compare b c = Lt -> Ascii.compare a c = Lt.
Proof.
  unfold Ascii.compare. rewrite !N.compare_lt_iff. lia.
Qed.

Lemma string_compare_lt_trans (s1 : string) :
  forall s2 s3 : string,
    String.compare s1 s2 = Lt -> String.compare s2 s3 = Lt ->
    String.compare s1 s3 = Lt.
Proof.
  induction s1 as [| a s1 IH]; intros [| b s2] [| c s3]; simpl;
    try discriminate; try reflexivity.
  destruct (Ascii.compare a b) eqn:Eab; try discriminate;
    destruct (Ascii.compare b c) eqn:Ebc; try discriminate.
  - apply Ascii.compare_eq_iff in Eab, Ebc. subst.
    assert (E : Ascii.compare c c = Eq) by apply N.compare_refl.
    rewrite E. apply IH.
  - apply Ascii.compare_eq_iff in Eab. subst. now rewrite Ebc.
  - apply Ascii.compare_eq_iff in Ebc. subst. now rewrite Eab.
  - now rewrite (ascii_compare_lt_trans _ _ _ Eab Ebc).
Qed.

Lemma string_compare_refl (s : string) : String.compare s s = Eq.
Proof.
  induction s as [| a s IH]; simpl; [reflexivity |].
  assert (E : Ascii.compare a a = Eq) by apply N.compare_refl.
  now rewrite E.
Qed.

Lemma string_not_lt_trans (s1 s2 s3 : string) :
  String.ltb s2 s1 = false -> String.ltb s3 s2 = false ->
  String.ltb s3 s1 = false.
Proof.
  unfold String.ltb. intros H12 H23.
  destruct (String.compare s3 s1) eqn:E31; try reflexivity.
  destruct (String.compare s2 s1) eqn:E21; try discriminate.
  - apply String.compare_eq_iff in E21. subst. now rewrite E31 in H23.
  - destruct (String.compare s3 s2) eqn:E32; try discriminate.
    + apply String.compare_eq_iff in E32. subst. congruence.
    + rewrite String.compare_antisym in E21, E32.
      destruct (String.compare s1 s2) eqn:E12; try discriminate.
      destruct (String.compare s2 s3) eqn:E23; try discriminate.
      pose proof (string_compare_lt_trans _ _ _ E12 E23) as E13.
      rewrite String.compare_antisym, E13 in E31. discriminate.
Qed.

Lemma tuple_lt_true (x y : Q * string) :
  tuple_lt x y = true <->
  (fst x < fst y)%Q \/
  (fst x == fst y /\ String.ltb (snd x) (snd y) = true).
Proof.
  unfold tuple_lt.
  destruct (Qeq_bool (fst x) (fst y)) eqn:E.
  - apply Qeq_bool_iff in E. split.
    + intros H. now right.
    + intros [H | [_ H]]; [lra | assumption].
  - apply Qeq_bool_neq in E. rewrite negb_true_iff. split.
    + intros H. left. apply Qnot_le_lt. intros Hle.
      apply Qle_bool_iff in Hle. congruence.
    + intros [H | [H _]]; [| contradiction].
      destruct (Qle_bool (fst y) (fst x)) eqn:Hle; [| reflexivity].
      apply Qle_bool_iff in Hle. lra.
Qed.

Lemma tuple_lt_false (x y : Q * string) :
  tuple_lt x y = false <->
  (fst y < fst x)%Q \/
  (fst x == fst y /\ String.ltb (snd x) (snd y) = false).
Proof.
  unfold tuple_lt.
  destruct (Qeq_bool (fst x) (fst y)) eqn:E.
  - apply Qeq_bool_iff in E. split.
    + intros H. now right.
    + intros [H | [_ H]]; [lra | assumption].
  - apply Qeq_bool_neq in E. rewrite negb_false_iff, Qle_bool_iff. split.
    + intros H. left. lra.
    + intros [H | [H _]]; [lra | contradiction].
Qed.

Lemma tuple_le_score (x y : Q * string) :
  tuple_le x y -> (fst x <= fst y)%Q.
Proof.
  unfold tuple_le. rewrite tuple_lt_false. intros [H | [H _]]; lra.
Qed.

Lemma tuple_le_tie (x y : Q * string) :
  tuple_le x y -> fst x == fst y -> String.leb (snd x) (snd y) = true.
Proof.
  unfold tuple_le. rewrite tuple_lt_false. intros [H | [_ H]] Heq; [lra |].
  unfold String.ltb in H. unfold String.leb.
  rewrite String.compare_antisym in H.
  destruct (String.compare (snd x) (snd y)); simpl in H;
    try reflexivity; discriminate.
Qed.

Lemma tuple_lt_le (x y : Q * string) : tuple_lt x y = true -> tuple_le x y.
Proof.
  unfold tuple_le. rewrite tuple_lt_true, tuple_lt_false.
  intros [H | [Heq H]]; [now left | right].
  split; [lra |].
  unfold String.ltb in *. rewrite String.compare_antisym.
  destruct (String.compare (snd x) (snd y)); simpl; try discriminate.
  reflexivity.
Qed.

Lemma tuple_le_trans (x y z : Q * string) :
  tuple_le x y -> tuple_le y z -> tuple_le x z.
Proof.
  unfold tuple_le. rewrite !tuple_lt_false.
  intros [Hxy | [Exy Sxy]] [Hyz | [Eyz Syz]].
  - left. lra.
  - left. lra.
  - left. lra.
  - right. split; [lra |]. exact (string_not_lt_trans _ _ _ Sxy Syz).
Qed.

(** ** [sorted] sorts *)

Lemma insort_Permutation (x : Q * string) (l : list (Q * string)) :
  Permutation (insort x l) (x :: l).
Proof.
  induction l as [| y l IH]; simpl.
  - apply Permutation_refl.
  - destruct (tuple_lt x y).
    + apply Permutation_refl.
    + eapply perm_trans; [apply perm_skip, IH | apply perm_swap].
Qed.

Lemma insort_StronglySorted (x : Q * string) (l : list (Q * string)) :
  StronglySorted tuple_le l -> StronglySorted tuple_le (insort x l).
Proof.
  induction 1 as [| y l Hsorted IH Hall]; simpl.
  - repeat constructor.
  - destruct (tuple_lt x y) eqn:E.
    + apply tuple_lt_le in E. constructor.
      * now constructor.
      * constructor; [assumption |].
        eapply Forall_impl; [| exact Hall].
        intros z Hz. exact (tuple_le_trans _ _ _ E Hz).
    + constructor; [assumption |].
      apply (Permutation_Forall (Permutation_sym (insort_Permutation x l))).
      constructor; assumption.
Qed.

Lemma fold_insort_Permutation (l : list (Q * string)) :
  forall acc, Permutation (fold_left (fun a x => insort x a) l acc) (l ++ acc).
Proof.
  induction l as [| x l IH]; intros acc; simpl.
  - apply Permutation_refl.
  - eapply perm_trans; [apply IH |].
    eapply perm_trans.
    + apply Permutation_app_head, insort_Permutation.
    + apply Permutation_sym, Permutation_middle.
Qed.

Lemma fold_insort_StronglySorted (l : list (Q * string)) :
  forall acc,
    StronglySorted tuple_le acc ->
    StronglySorted tuple_le (fold_left (fun a x => insort x a) l acc).
Proof.
  induction l as [| x l IH]; intros acc Hacc; simpl.
  - assumption.
  - apply IH, insort_StronglySorted, Hacc.
Qed.

Lemma sorted_Permutation (l : list (Q * string)) : Permutation (sorted l) l.
Proof.
  unfold sorted. rewrite <- (app_nil_r l) at 2. apply fold_insort_Permutation.
Qed.

Lemma sorted_StronglySorted (l : list (Q * string)) :
  StronglySorted tuple_le (sorted l).
Proof.
  apply fold_insort_StronglySorted. constructor.
Qed.

Lemma StronglySorted_snoc {A : Type} (R : A -> A -> Prop) (l : list A) (a : A) :
  StronglySorted R l -> Forall (fun z => R z a) l ->
  StronglySorted R (l ++ [a]).
Proof.
  induction 1 as [| y l Hsorted IH Hall]; intros Hlast; simpl.
  - repeat constructor.
  - inversion Hlast as [| ? ? Hy Hl]; subst. constructor.
    + now apply IH.
    + apply Forall_app. split; [assumption | now constructor].
Qed.

Lemma StronglySorted_rev {A : Type} (R : A -> A -> Prop) (l : list A) :
  StronglySorted R l -> StronglySorted (fun a b => R b a) (rev l).
Proof.
  induction 1 as [| y l Hsorted IH Hall]; simpl.
  - constructor.
  - apply StronglySorted_snoc; [assumption |].
    apply Forall_rev. assumption.
Qed.

Lemma StronglySorted_firstn {A : Type} (R : A -> A -> Prop) (n : nat)
      (l : list A) :
  StronglySorted R l -> StronglySorted R (firstn n l).
Proof.
  intros H. revert n.
  induction H as [| y l Hsorted IH Hall]; intros [| n]; simpl;
    try constructor.
  - apply IH.
  - rewrite Forall_forall in *. intros z Hz. apply Hall.
    rewrite <- (firstn_skipn n l). apply in_or_app. now left.
Qed.

Lemma StronglySorted_impl {A : Type} (R R' : A -> A -> Prop) (l : list A) :
  (forall a b, R a b -> R' a b) ->
  StronglySorted R l -> StronglySorted R' l.
Proof.
  intros Himpl. induction 1 as [| y l Hsorted IH Hall]; constructor.
  - assumption.
  - eapply Forall_impl; [| exact Hall]. intros z. apply Himpl.
Qed.

Lemma sorted_reverse_Permutation (l : list (Q * string)) :
  Permutation (sorted_reverse l) l.
Proof.
  unfold sorted_reverse.
  eapply perm_trans; [apply Permutation_sym, Permutation_rev |].
  eapply perm_trans; [apply sorted_Permutation |].
  apply Permutation_sym, Permutation_rev.
Qed.

Lemma sorted_reverse_StronglySorted (l : list (Q * string)) :
  StronglySorted (fun x y => tuple_le y x) (sorted_reverse l).
Proof.
  apply StronglySorted_rev, sorted_StronglySorted.
Qed.

Lemma firstn_all_Permutation {A : Type} (n : nat) (l l' : list A) :
  Permutation l l' -> List.length l' <= n -> Permutation (firstn n l) l'.
Proof.
  intros Hperm Hlen.
  rewrite firstn_all2; [assumption |].
  rewrite (Permutation_length Hperm). assumption.
Qed.

Lemma In_firstn {A : Type} (n : nat) (l : list A) (a : A) :
  In a (firstn n l) -> In a l.
Proof.
  intros H. rewrite <- (firstn_skipn n l). apply in_or_app. now left.
Qed.

(** ** No division by zero, whatever the matrix *)

Lemma index_not_ZeroDivisionError (x : string) (l : list string) :
  index x l <> Raise ZeroDivisionError.
Proof.
  induction l as [| y l IH]; simpl; [discriminate |].
  destruct (String.eqb y x); [discriminate |].
  destruct (index x l) as [i | e]; simpl; [discriminate | assumption].
Qed.

Lemma matrix_getitem_not_ZeroDivisionError (m : matrix) (i j : nat) :
  matrix_getitem m i j <> Raise ZeroDivisionError.
Proof.
  unfold matrix_getitem, getitem.
  destruct (nth_error m i) as [row |]; simpl; [| discriminate].
  destruct (nth_error row j); discriminate.
Qed.

Lemma for_each_never {S A : Type} (body : S -> A -> result S) (e : exn)
      (l : list A) :
  (forall st x, body st x <> Raise e) ->
  forall st, for_each body l st <> Raise e.
Proof.
  intros Hbody. induction l as [| x l IH]; intros st; simpl; [discriminate |].
  destruct (body st x) as [st' |e'] eqn:E; simpl.
  - apply IH.
  - rewrite <- E. apply Hbody.
Qed.

Lemma score_token_not_ZeroDivisionError (review_id : nat) (st : Q * nat)
      (token : string) :
  score_token review_id st token <> Raise ZeroDivisionError.
Proof.
  unfold score_token. destruct st as [score token_count].
  destruct (contains token features); [| discriminate].
  destruct (index token features) as [j | e] eqn:Ej; simpl.
  - destruct (matrix_getitem dtm review_id j) as [w | e] eqn:Ew; simpl.
    + discriminate.
    + intros [= ->]. exact (matrix_getitem_not_ZeroDivisionError _ _ _ Ew).
  - intros [= ->]. exact (index_not_ZeroDivisionError _ _ Ej).
Qed.

Lemma score_sentence_not_ZeroDivisionError (review_id : nat)
      (sentence : string) :
  score_sentence review_id sentence <> Raise ZeroDivisionError.
Proof.
  unfold score_sentence.
  destruct (for_each (score_token review_id) (word_tokenize sentence) (0%Q, 0))
    as [[score token_count] | e] eqn:E; simpl.
  - rewrite truediv_float_succ. simpl. discriminate.
  - intros [= ->]. revert E. apply for_each_never.
    intros st x. apply score_token_not_ZeroDivisionError.
Qed.

Lemma visit_sentence_not_ZeroDivisionError (review_id : nat)
      (sent_scores : list (Q * string)) (sentence : string) :
  visit_sentence review_id sent_scores sentence <> Raise ZeroDivisionError.
Proof.
  unfold visit_sentence.
  destruct (6 <? String.length sentence); [| discriminate].
  destruct (score_sentence review_id sentence) as [p | e] eqn:E; simpl.
  - discriminate.
  - intros [= ->]. exact (score_sentence_not_ZeroDivisionError _ _ E).
Qed.

(** ** Scores are not negative when the weights are not *)

Lemma spec_weight_nonneg (review_id : nat) (token : string) :
  weights_nonneg -> (0 <= spec_weight review_id token)%Q.
Proof.
  intros H. unfold spec_weight.
  assert (Hrow : Forall (fun w => (0 <= w)%Q) (nth review_id dtm [])).
  { destruct (nth_in_or_default review_id dtm []) as [Hin | ->].
    - unfold weights_nonneg in H. rewrite Forall_forall in H. now apply H.
    - constructor. }
  destruct (nth_in_or_default (position token features)
                              (nth review_id dtm []) 0%Q) as [Hin | ->].
  - rewrite Forall_forall in Hrow. now apply Hrow.
  - apply Qle_refl.
Qed.

Lemma fold_Qplus_nonneg (l : list Q) :
  Forall (fun w => (0 <= w)%Q) l ->
  forall acc, (0 <= acc)%Q -> (0 <= fold_left Qplus l acc)%Q.
Proof.
  induction 1 as [| w l Hw Hl IH]; intros acc Hacc; simpl.
  - assumption.
  - apply IH. lra.
Qed.

Lemma spec_score_nonneg (review_id : nat) (sentence : string) :
  weights_nonneg -> (0 <= spec_score review_id sentence)%Q.
Proof.
  intros H. unfold spec_score. cbv zeta.
  apply Qle_shift_div_l.
  - pose proof (float_succ_ge_1 (List.length (spec_found sentence))). lra.
  - rewrite Qmult_0_l. apply fold_Qplus_nonneg; [| apply Qle_refl].
    apply Forall_forall. intros w Hw. apply in_map_iff in Hw.
    destruct Hw as [token [<- _]]. now apply spec_weight_nonneg.
Qed.

Lemma spec_found_nil (sentence : string) :
  Forall (fun token => contains token features = false)
         (word_tokenize sentence) ->
  spec_found sentence = [].
Proof.
  unfold spec_found.
  induction 1 as [| token tokens Htoken Htokens IH]; simpl.
  - reflexivity.
  - now rewrite Htoken.
Qed.

(** ** The properties of the summarizer *)

(** C1: for every retained sentence of the selected document, the score is
    the sum, over the tokens of the sentence that are in the vocabulary, of
    the weight at (document row, term column), divided by the number of
    such tokens plus one; the other tokens add nothing and are not
    counted. *)
Theorem C1_score_is_damped_mean_weight (g g' : RandomState) (review_id : nat)
        (review_text : string) :
  matrix_consistent ->
  randint g 0 (List.length reviews) = Ok (review_id, g') ->
  nth_error reviews review_id = Some review_text ->
  let expected :=
    map (fun sentence =>
           let found :=
             filter (fun token => contains token features)
                    (word_tokenize sentence) in
           ((fold_left Qplus (map (spec_weight review_id) found) 0
             / float (List.length found + 1))%Q, sentence))
        (spec_retained review_text) in
  sentence_scores review_id review_text = Ok expected /\
  summarize g = Ok (report expected, g').
Proof.
  intros Hm Hrand Htext expected.
  assert (Hrow : row_covers review_id).
  { apply matrix_consistent_row_covers; [assumption |].
    apply nth_error_Some. congruence. }
  split.
  - now apply sentence_scores_closed.
  - now apply summarize_closed.
Qed.

(** C2, as the code has it: among sentences of equal score the lists are
    ordered by the text of the sentence, ascending in the lowest list and
    descending in the highest one. *)
Theorem C2_ties_ordered_by_sentence_text (g g' : RandomState) (review_id : nat)
        (review_text : string) :
  matrix_consistent ->
  randint g 0 (List.length reviews) = Ok (review_id, g') ->
  nth_error reviews review_id = Some review_text ->
  exists out,
    summarize g = Ok (out, g') /\
    StronglySorted
      (fun a b => fst a == fst b -> String.leb (snd a) (snd b) = true)
      (lowest out) /\
    StronglySorted
      (fun a b => fst a == fst b -> String.leb (snd b) (snd a) = true)
      (highest out).
Proof.
  intros Hm Hrand Htext. eexists. split; [| split].
  - now apply (summarize_closed g g' review_id review_text).
  - cbn [lowest report]. apply StronglySorted_firstn.
    eapply StronglySorted_impl; [| apply sorted_StronglySorted].
    intros a b. apply tuple_le_tie.
  - cbn [highest report]. apply StronglySorted_firstn.
    eapply StronglySorted_impl; [| apply sorted_reverse_StronglySorted].
    intros a b Hle Heq. apply (tuple_le_tie b a Hle). now symmetry.
Qed.

(** C3: no sentence of six characters or fewer appears in either list. *)
Theorem C3_no_short_sentence_reported (g g' : RandomState) (review_id : nat)
        (review_text : string) :
  matrix_consistent ->
  randint g 0 (List.length reviews) = Ok (review_id, g') ->
  nth_error reviews review_id = Some review_text ->
  exists out,
    summarize g = Ok (out, g') /\
    forall p, In p (lowest out) \/ In p (highest out) ->
              ~ String.length (snd p) <= 6.
Proof.
  intros Hm Hrand Htext. eexists. split.
  - now apply (summarize_closed g g' review_id review_text).
  - intros p Hp.
    assert (Hin : In p (map (fun sentence =>
                               (spec_score review_id sentence, sentence))
                            (spec_retained review_text))).
    { destruct Hp as [Hp | Hp]; cbn [lowest highest report] in Hp;
        apply In_firstn in Hp.
      - now apply (Permutation_in _ (sorted_Permutation _)).
      - now apply (Permutation_in _ (sorted_reverse_Permutation _)). }
    apply in_map_iff in Hin. destruct Hin as [sentence [<- Hs]].
    unfold spec_retained in Hs. apply filter_In in Hs.
    destruct Hs as [_ Hlen]. apply Nat.ltb_lt in Hlen. simpl. lia.
Qed.

(** C4, as the code has it: the sentences that are scored are exactly the
    sentences of more than six characters, in the order of the document; a
    sentence of exactly six characters is discarded. *)
Theorem C4_retained_iff_longer_than_six (g g' : RandomState) (review_id : nat)
        (review_text : string) :
  matrix_consistent ->
  randint g 0 (List.length reviews) = Ok (review_id, g') ->
  nth_error reviews review_id = Some review_text ->
  exists sent_scores,
    sentence_scores review_id review_text = Ok sent_scores /\
    summarize g = Ok (report sent_scores, g') /\
    map snd sent_scores =
    filter (fun sentence => 6 <? String.length sentence)
           (sent_tokenize review_text) /\
    forall sentence,
      In sentence (sent_tokenize review_text) ->
      (In sentence (map snd sent_scores) <-> 6 < String.length sentence) /\
      (String.length sentence = 6 -> ~ In sentence (map snd sent_scores)).
Proof.
  intros Hm Hrand Htext.
  assert (Hrow : row_covers review_id).
  { apply matrix_consistent_row_covers; [assumption |].
    apply nth_error_Some. congruence. }
  eexists. split; [| split; [| split]].
  - now apply sentence_scores_closed.
  - now apply summarize_closed.
  - rewrite map_map. cbn [snd]. now rewrite map_id.
  - intros sentence Hin. rewrite map_map. cbn [snd]. rewrite map_id.
    unfold spec_retained. rewrite filter_In, Nat.ltb_lt. split.
    + tauto.
    + intros Hsix [_ Hlt]. lia.
Qed.

(** C5: the lowest list is in ascending order of score, the highest list in
    descending order of score, and each holds at most three pairs. *)
Theorem C5_lists_ranked_and_bounded (g g' : RandomState) (review_id : nat)
        (review_text : string) :
  matrix_consistent ->
  randint g 0 (List.length reviews) = Ok (review_id, g') ->
  nth_error reviews review_id = Some review_text ->
  exists out,
    summarize g = Ok (out, g') /\
    StronglySorted (fun a b => (fst a <= fst b)%Q) (lowest out) /\
    StronglySorted (fun a b => (fst b <= fst a)%Q) (highest out) /\
    List.length (lowest out) <= 3 /\
    List.length (highest out) <= 3.
Proof.
  intros Hm Hrand Htext. eexists. split; [| split; [| split; [| split]]].
  - now apply (summarize_closed g g' review_id review_text).
  - cbn [lowest report]. apply StronglySorted_firstn.
    eapply StronglySorted_impl; [| apply sorted_StronglySorted].
    intros a b. apply tuple_le_score.
  - cbn [highest report]. apply StronglySorted_firstn.
    eapply StronglySorted_impl; [| apply sorted_reverse_StronglySorted].
    intros a b. apply tuple_le_score.
  - cbn [lowest report]. apply firstn_le_length.
  - cbn [highest report]. apply firstn_le_length.
Qed.

(** C6: two calls that select the same document of the same corpus, with
    the same vocabulary and matrix, report identical lists, whatever the
    states of the generator. *)
Theorem C6_same_document_same_lists (g1 g1' g2 g2' : RandomState)
        (review_id : nat) (review_text : string) :
  matrix_consistent ->
  randint g1 0 (List.length reviews) = Ok (review_id, g1') ->
  randint g2 0 (List.length reviews) = Ok (review_id, g2') ->
  nth_error reviews review_id = Some review_text ->
  exists out,
    summarize g1 = Ok (out, g1') /\ summarize g2 = Ok (out, g2').
Proof.
  intros Hm Hrand1 Hrand2 Htext. eexists. split.
  - now apply (summarize_closed g1 g1' review_id review_text).
  - now apply (summarize_closed g2 g2' review_id review_text).
Qed.

(** C7: when every sentence of the document has six characters or fewer,
    the summarizer returns two empty lists and raises nothing. *)
Theorem C7_no_qualifying_sentence (g g' : RandomState) (review_id : nat)
        (review_text : string) :
  randint g 0 (List.length reviews) = Ok (review_id, g') ->
  nth_error reviews review_id = Some review_text ->
  Forall (fun sentence => String.length sentence <= 6)
         (sent_tokenize review_text) ->
  summarize g =
  Ok ({| lowest := []; highest := []; printed := [LOWEST; HIGHEST] |}, g').
Proof.
  intros Hrand Htext Hshort.
  rewrite (summarize_unfold _ _ _ _ Hrand Htext).
  assert (Hloop : forall sent_scores,
             for_each (visit_sentence review_id) (sent_tokenize review_text)
                      sent_scores = Ok sent_scores).
  { induction Hshort as [| sentence sentences Hlen Hrest IH];
      intros sent_scores; cbn [for_each]; [reflexivity |].
    unfold visit_sentence at 1.
    apply Nat.ltb_ge in Hlen. rewrite Hlen. cbn [Py.bind]. apply IH. }
  unfold sentence_scores. rewrite Hloop. reflexivity.
Qed.

(** C8: with fewer than three qualifying sentences each list holds all of
    them; with exactly one, both lists are that single sentence. *)
Theorem C8_short_document_reports_all (g g' : RandomState) (review_id : nat)
        (review_text : string) :
  matrix_consistent ->
  randint g 0 (List.length reviews) = Ok (review_id, g') ->
  nth_error reviews review_id = Some review_text ->
  List.length (spec_retained review_text) < 3 ->
  exists out sent_scores,
    summarize g = Ok (out, g') /\
    sentence_scores review_id review_text = Ok sent_scores /\
    map snd sent_scores = spec_retained review_text /\
    Permutation (lowest out) sent_scores /\
    Permutation (highest out) sent_scores /\
    (forall sentence,
        spec_retained review_text = [sentence] ->
        map snd (lowest out) = [sentence] /\
        map snd (highest out) = [sentence]).
Proof.
  intros Hm Hrand Htext Hfew.
  assert (Hrow : row_covers review_id).
  { apply matrix_consistent_row_covers; [assumption |].
    apply nth_error_Some. congruence. }
  do 2 eexists. split; [| split; [| split; [| split; [| split]]]].
  - now apply (summarize_closed g g' review_id review_text).
  - now apply sentence_scores_closed.
  - rewrite map_map. cbn [snd]. now rewrite map_id.
  - cbn [lowest report]. apply firstn_all_Permutation.
    + apply sorted_Permutation.
    + rewrite length_map. lia.
  - cbn [highest report]. apply firstn_all_Permutation.
    + apply sorted_reverse_Permutation.
    + rewrite length_map. lia.
  - intros sentence Hone. rewrite Hone. split; reflexivity.
Qed.

(** C9: the denominator of the final division is at least one, also when
    no token of the sentence is in the vocabulary, so the division is
    defined and no sentence makes the summarizer divide by zero. *)
Theorem C9_division_is_defined :
  (forall (score : Q) (token_count : nat),
      (1 <= float (token_count + 1))%Q /\
      truediv score (float (token_count + 1)) =
      Ok (score / float (token_count + 1))%Q) /\
  float (0 + 1) == 1 /\
  (forall (review_id : nat) (sentence : string),
      score_sentence review_id sentence <> Raise ZeroDivisionError) /\
  (forall (review_id : nat) (review_text : string),
      sentence_scores review_id review_text <> Raise ZeroDivisionError).
Proof.
  split; [| split; [| split]].
  - intros score token_count. split.
    + apply float_succ_ge_1.
    + apply truediv_float_succ.
  - reflexivity.
  - apply score_sentence_not_ZeroDivisionError.
  - intros review_id review_text. unfold sentence_scores.
    apply for_each_never. intros st x.
    apply visit_sentence_not_ZeroDivisionError.
Qed.

(** C10: when no weight of the matrix is negative, no score is negative,
    and a retained sentence none of whose tokens is in the vocabulary has
    score zero. *)
Theorem C10_scores_nonneg (g g' : RandomState) (review_id : nat)
        (review_text : string) :
  matrix_consistent ->
  weights_nonneg ->
  randint g 0 (List.length reviews) = Ok (review_id, g') ->
  nth_error reviews review_id = Some review_text ->
  exists out sent_scores,
    summarize g = Ok (out, g') /\
    sentence_scores review_id review_text = Ok sent_scores /\
    (forall p, In p sent_scores \/ In p (lowest out) \/ In p (highest out) ->
               (0 <= fst p)%Q) /\
    (forall p,
        In p sent_scores ->
        Forall (fun token => contains token features = false)
               (word_tokenize (snd p)) ->
        fst p = 0%Q) /\
    (forall sentence,
        In sentence (spec_retained review_text) ->
        Forall (fun token => contains token features = false)
               (word_tokenize sentence) ->
        In (0%Q, sentence) sent_scores).
Proof.
  intros Hm Hpos Hrand Htext.
  assert (Hrow : row_covers review_id).
  { apply matrix_consistent_row_covers; [assumption |].
    apply nth_error_Some. congruence. }
  assert (Hzero : forall sentence,
             Forall (fun token => contains token features = false)
                    (word_tokenize sentence) ->
             spec_score review_id sentence = 0%Q).
  { intros sentence Hnone. unfold spec_score.
    rewrite (spec_found_nil _ Hnone). reflexivity. }
  do 2 eexists. split; [| split; [| split; [| split]]].
  - now apply (summarize_closed g g' review_id review_text).
  - now apply sentence_scores_closed.
  - intros p Hp.
    assert (Hin : In p (map (fun sentence =>
                               (spec_score review_id sentence, sentence))
                            (spec_retained review_text))).
    { destruct Hp as [Hp | [Hp | Hp]]; [assumption | |];
        cbn [lowest highest report] in Hp; apply In_firstn in Hp.
      - now apply (Permutation_in _ (sorted_Permutation _)).
      - now apply (Permutation_in _ (sorted_reverse_Permutation _)). }
    apply in_map_iff in Hin. destruct Hin as [sentence [<- _]].
    now apply spec_score_nonneg.
  - intros p Hin Hnone. apply in_map_iff in Hin.
    destruct Hin as [sentence [<- _]]. cbn [fst snd] in *.
    now apply Hzero.
  - intros sentence Hin Hnone. apply in_map_iff. exists sentence.
    split; [| assumption]. now rewrite Hzero.
Qed.

(** ** Further properties of the summarizer *)

(** *** Which exceptions scoring raises, and when *)

Lemma getitem_Ok_inv {A : Type} (l : list A) (i : nat) (a d : A) :
  getitem l i = Ok a -> i < List.length l /\ a = nth i l d.
Proof.
  unfold getitem. destruct (nth_error l i) as [a' |] eqn:E; [| discriminate].
  intros [= <-]. split.
  - apply nth_error_Some. congruence.
  - symmetry. now apply nth_error_nth.
Qed.

Lemma matrix_getitem_Ok_inv (m : matrix) (i j : nat) (w : Q) :
  matrix_getitem m i j = Ok w -> j < List.length (nth i m []).
Proof.
  unfold matrix_getitem. intros H.
  apply bind_Ok_inv in H. destruct H as [row [Hrow Hw]].
  destruct (getitem_Ok_inv _ _ _ [] Hrow) as [_ ->].
  exact (proj1 (getitem_Ok_inv _ _ _ 0%Q Hw)).
Qed.

Lemma matrix_getitem_raises (m : matrix) (i j : nat) (e : exn) :
  matrix_getitem m i j = Raise e -> e = IndexError.
Proof.
  unfold matrix_getitem, getitem.
  destruct (nth_error m i) as [row |]; simpl.
  - destruct (nth_error row j); [discriminate | now intros [= <-]].
  - now intros [= <-].
Qed.

Lemma for_each_raises {S A : Type} (body : S -> A -> result S)
      (P : exn -> Prop) (l : list A) :
  (forall st x e, body st x = Raise e -> P e) ->
  forall st e, for_each body l st = Raise e -> P e.
Proof.
  intros Hbody. induction l as [| x l IH]; intros st e; simpl; [discriminate |].
  destruct (body st x) as [st' | e'] eqn:E; simpl.
  - apply IH.
  - intros [= <-]. exact (Hbody _ _ _ E).
Qed.

Lemma score_token_raises (review_id : nat) (st : Q * nat) (token : string)
      (e : exn) :
  score_token review_id st token = Raise e -> e = IndexError.
Proof.
  unfold score_token. destruct st as [score token_count].
  destruct (contains token features) eqn:E; [| discriminate].
  destruct (index_position token features E) as [-> _]. cbn [Py.bind].
  destruct (matrix_getitem dtm review_id (position token features))
    as [w | e'] eqn:Ew; simpl; [discriminate |].
  intros [= <-]. exact (matrix_getitem_raises _ _ _ _ Ew).
Qed.

Lemma score_sentence_raises (review_id : nat) (sentence : string) (e : exn) :
  score_sentence review_id sentence = Raise e -> e = IndexError.
Proof.
  unfold score_sentence.
  destruct (for_each (score_token review_id) (word_tokenize sentence) (0%Q, 0))
    as [[score token_count] | e'] eqn:E; simpl.
  - rewrite truediv_float_succ. simpl. discriminate.
  - intros [= <-]. revert E.
    apply (for_each_raises _ (fun e => e = IndexError)).
    intros st x e. apply score_token_raises.
Qed.

Lemma visit_sentence_raises (review_id : nat) (sent_scores : list (Q * string))
      (sentence : string) (e : exn) :
  visit_sentence review_id sent_scores sentence = Raise e -> e = IndexError.
Proof.
  unfold visit_sentence.
  destruct (6 <? String.length sentence); [| discriminate].
  destruct (score_sentence review_id sentence) as [p | e'] eqn:E; simpl.
  - discriminate.
  - intros [= <-]. exact (score_sentence_raises _ _ _ E).
Qed.

Lemma score_tokens_columns (review_id : nat) (tokens : list string) :
  forall (score : Q) (token_count : nat),
    let found := filter (fun token => contains token features) tokens in
    (Forall (fun token => position token features
                          < List.length (nth review_id dtm [])) found ->
     for_each (score_token review_id) tokens (score, token_count) =
     Ok (fold_left Qplus (map (spec_weight review_id) found) score,
         token_count + List.length found)) /\
    (forall st, for_each (score_token review_id) tokens (score, token_count)
                = Ok st ->
                Forall (fun token => position token features
                                     < List.length (nth review_id dtm []))
                       found).
Proof.
  induction tokens as [| token tokens IH]; intros score token_count; cbv zeta.
  - simpl. split; [intros _; now rewrite Nat.add_0_r | constructor].
  - cbn [for_each filter]. unfold score_token at 1 3.
    destruct (contains token features) eqn:E.
    + destruct (index_position token features E) as [-> _]. cbn [Py.bind].
      split.
      * intros Hall. inversion Hall as [| ? ? Hcol Hrest]; subst.
        rewrite (matrix_getitem_nth _ _ _ Hcol). cbn [Py.bind].
        rewrite (proj1 (IH _ _) Hrest).
        cbn [map fold_left List.length]. do 2 f_equal. lia.
      * intros st H. apply bind_Ok_inv in H. destruct H as [st1 [Hst1 Hrest]].
        apply bind_Ok_inv in Hst1. destruct Hst1 as [w [Hw Hst1]].
        injection Hst1 as <-. constructor.
        -- exact (matrix_getitem_Ok_inv _ _ _ _ Hw).
        -- exact (proj2 (IH _ _) _ Hrest).
    + cbn [Py.bind]. apply IH.
Qed.

Lemma score_sentence_columns (review_id : nat) (sentence : string) :
  (columns_in_row review_id sentence ->
   score_sentence review_id sentence =
   Ok (spec_score review_id sentence, sentence)) /\
  (forall p, score_sentence review_id sentence = Ok p ->
             columns_in_row review_id sentence).
Proof.
  unfold score_sentence, columns_in_row, spec_found. split.
  - intros Hcols.
    rewrite (proj1 (score_tokens_columns review_id _ 0%Q 0) Hcols).
    cbn [Py.bind]. rewrite truediv_float_succ. reflexivity.
  - intros p H. apply bind_Ok_inv in H. destruct H as [st [Hst _]].
    exact (proj2 (score_tokens_columns review_id _ 0%Q 0) _ Hst).
Qed.

Lemma visit_sentences_columns (review_id : nat) (sentences : list string) :
  forall sent_scores : list (Q * string),
    let retained :=
      filter (fun sentence => 6 <? String.length sentence) sentences in
    (Forall (columns_in_row review_id) retained ->
     for_each (visit_sentence review_id) sentences sent_scores =
     Ok (sent_scores ++
         map (fun sentence => (spec_score review_id sentence, sentence))
             retained)) /\
    (forall out, for_each (visit_sentence review_id) sentences sent_scores
                 = Ok out ->
                 Forall (columns_in_row review_id) retained).
Proof.
  induction sentences as [| sentence sentences IH]; intros sent_scores;
    cbv zeta.
  - simpl. split; [intros _; now rewrite app_nil_r | constructor].
  - cbn [for_each filter]. unfold visit_sentence at 1 3.
    destruct (6 <? String.length sentence).
    + split.
      * intros Hall. inversion Hall as [| ? ? Hcols Hrest]; subst.
        rewrite (proj1 (score_sentence_columns _ _) Hcols). cbn [Py.bind].
        rewrite (proj1 (IH _) Hrest), <- app_assoc. reflexivity.
      * intros out H. apply bind_Ok_inv in H. destruct H as [acc [Hacc Hrest]].
        apply bind_Ok_inv in Hacc. destruct Hacc as [p [Hp _]].
        constructor.
        -- exact (proj2 (score_sentence_columns _ _) _ Hp).
        -- exact (proj2 (IH _) _ Hrest).
    + cbn [Py.bind]. apply IH.
Qed.

(** X1: whatever the matrix and the vocabulary, the only exception that
    scoring the sentences of a review can raise is [IndexError]; the test
    [token in features] keeps [features.index] from raising [ValueError]. *)
Theorem scoring_raises_only_IndexError (review_id : nat) (review_text : string)
        (e : exn) :
  sentence_scores review_id review_text = Raise e -> e = IndexError.
Proof.
  unfold sentence_scores.
  apply (for_each_raises _ (fun e => e = IndexError)).
  intros st x e'. apply visit_sentence_raises.
Qed.

(** X2: scoring succeeds exactly when, for every retained sentence, the
    column of every token found in the vocabulary lies within the row of
    the review; it then returns the scores in closed form, and otherwise it
    raises [IndexError]. *)
Theorem scoring_succeeds_iff_columns_in_row (review_id : nat)
        (review_text : string) :
  let covered :=
    Forall (columns_in_row review_id) (spec_retained review_text) in
  (covered <->
   sentence_scores review_id review_text =
   Ok (map (fun sentence => (spec_score review_id sentence, sentence))
           (spec_retained review_text))) /\
  (~ covered <-> sentence_scores review_id review_text = Raise IndexError).
Proof.
  cbv zeta. unfold sentence_scores, spec_retained.
  pose proof (visit_sentences_columns review_id (sent_tokenize review_text) [])
    as [Hok Hinv]. cbv zeta in Hok, Hinv.
  split; split.
  - intros Hall. now rewrite (Hok Hall).
  - intros H. exact (Hinv _ H).
  - intros Hnot.
    destruct (for_each (visit_sentence review_id) (sent_tokenize review_text) [])
      as [out | e] eqn:E.
    + contradiction (Hnot (Hinv _ eq_refl)).
    + f_equal. revert E.
      apply (for_each_raises _ (fun e => e = IndexError)).
      intros st x e'. apply visit_sentence_raises.
  - intros Hraise Hall. rewrite (Hok Hall) in Hraise. discriminate.
Qed.

(** *** The lists hold the extremes *)

Lemma StronglySorted_app_inv {A : Type} (R : A -> A -> Prop) (l1 l2 : list A) :
  StronglySorted R (l1 ++ l2) ->
  forall x y, In x l1 -> In y l2 -> R x y.
Proof.
  induction l1 as [| a l1 IH]; simpl; intros Hsorted x y Hx Hy.
  - contradiction.
  - inversion Hsorted as [| ? ? Hrest Hall]; subst.
    destruct Hx as [<- | Hx].
    + rewrite Forall_forall in Hall. apply Hall, in_or_app. now right.
    + now apply IH.
Qed.

Lemma firstn_sorted_extreme {A : Type} (R : A -> A -> Prop) (n : nat)
      (l l' : list A) :
  StronglySorted R l -> Permutation l l' ->
  forall p q, In p (firstn n l) -> In q l' -> In q (firstn n l) \/ R p q.
Proof.
  intros Hsorted Hperm p q Hp Hq.
  apply (Permutation_in _ (Permutation_sym Hperm)) in Hq.
  rewrite <- (firstn_skipn n l) in Hq, Hsorted.
  apply in_app_or in Hq. destruct Hq as [Hq | Hq]; [now left | right].
  exact (StronglySorted_app_inv _ _ _ Hsorted _ _ Hp Hq).
Qed.

(** X3: a retained sentence that is left out of the lowest list scores at
    least as much as every sentence of that list, and one left out of the
    highest list scores at most as much as every sentence of that list. *)
Theorem lists_hold_the_extremes (g g' : RandomState) (review_id : nat)
        (review_text : string) :
  matrix_consistent ->
  randint g 0 (List.length reviews) = Ok (review_id, g') ->
  nth_error reviews review_id = Some review_text ->
  exists out sent_scores,
    summarize g = Ok (out, g') /\
    sentence_scores review_id review_text = Ok sent_scores /\
    (forall p q, In p (lowest out) -> In q sent_scores ->
                 In q (lowest out) \/ (fst p <= fst q)%Q) /\
    (forall p q, In p (highest out) -> In q sent_scores ->
                 In q (highest out) \/ (fst q <= fst p)%Q).
Proof.
  intros Hm Hrand Htext.
  assert (Hrow : row_covers review_id).
  { apply matrix_consistent_row_covers; [assumption |].
    apply nth_error_Some. congruence. }
  do 2 eexists. split; [| split; [| split]].
  - now apply (summarize_closed g g' review_id review_text).
  - now apply sentence_scores_closed.
  - cbn [lowest report]. intros p q Hp Hq.
    destruct (firstn_sorted_extreme tuple_le 3 _ _
                (sorted_StronglySorted _) (sorted_Permutation _) p q Hp Hq)
      as [Hin | Hle]; [now left | right].
    now apply tuple_le_score.
  - cbn [highest report]. intros p q Hp Hq.
    destruct (firstn_sorted_extreme (fun x y => tuple_le y x) 3 _ _
                (sorted_reverse_StronglySorted _)
                (sorted_reverse_Permutation _) p q Hp Hq)
      as [Hin | Hle]; [now left | right].
    now apply tuple_le_score.
Qed.

(** X4: each list holds exactly three pairs, or all the retained sentences
    when there are fewer than three; the call prints that many sentences
    under each of its two headings. *)
Theorem lists_have_min_three_length (g g' : RandomState) (review_id : nat)
        (review_text : string) :
  matrix_consistent ->
  randint g 0 (List.length reviews) = Ok (review_id, g') ->
  nth_error reviews review_id = Some review_text ->
  exists out,
    summarize g = Ok (out, g') /\
    let retained := List.length (spec_retained review_text) in
    List.length (lowest out) = Nat.min 3 retained /\
    List.length (highest out) = Nat.min 3 retained /\
    List.length (printed out) = 2 + 2 * Nat.min 3 retained.
Proof.
  intros Hm Hrand Htext. eexists. split.
  - now apply (summarize_closed g g' review_id review_text).
  - cbv zeta. cbn [lowest highest printed report].
    rewrite !length_app, !length_map, !length_firstn.
    rewrite (Permutation_length (sorted_Permutation _)).
    rewrite (Permutation_length (sorted_reverse_Permutation _)).
    rewrite length_map. cbn [List.length]. lia.
Qed.

(** *** A bound on the scores *)

Lemma float_succ (n : nat) : float (n + 1) == float n + 1.
Proof.
  unfold float. rewrite Nat2Z.inj_add, inject_Z_plus. reflexivity.
Qed.

Lemma float_nonneg (n : nat) : (0 <= float n)%Q.
Proof.
  unfold float, Qle. simpl. lia.
Qed.

Lemma spec_weight_at_most (bound : Q) (review_id : nat) (token : string) :
  (0 <= bound)%Q -> weights_at_most bound ->
  (spec_weight review_id token <= bound)%Q.
Proof.
  intros Hbound H. unfold spec_weight.
  assert (Hrow : Forall (fun w => (w <= bound)%Q) (nth review_id dtm [])).
  { destruct (nth_in_or_default review_id dtm []) as [Hin | ->].
    - unfold weights_at_most in H. rewrite Forall_forall in H. now apply H.
    - constructor. }
  destruct (nth_in_or_default (position token features)
                              (nth review_id dtm []) 0%Q) as [Hin | ->].
  - rewrite Forall_forall in Hrow. now apply Hrow.
  - assumption.
Qed.

Lemma fold_Qplus_at_most (bound : Q) (l : list Q) :
  Forall (fun w => (w <= bound)%Q) l ->
  forall acc,
    (fold_left Qplus l acc <= acc + bound * float (List.length l))%Q.
Proof.
  induction 1 as [| w l Hw Hl IH]; intros acc.
  - cbn [fold_left List.length]. change (float 0) with 0%Q. lra.
  - cbn [fold_left List.length].
    eapply Qle_trans; [apply IH |].
    replace (S (List.length l)) with (List.length l + 1) by lia.
    rewrite float_succ. lra.
Qed.

Lemma spec_score_at_most (bound : Q) (review_id : nat) (sentence : string) :
  (0 <= bound)%Q -> weights_at_most bound ->
  (spec_score review_id sentence <= bound)%Q.
Proof.
  intros Hbound H. unfold spec_score. cbv zeta.
  pose proof (float_succ_ge_1 (List.length (spec_found sentence))) as Hden.
  apply Qle_shift_div_r; [lra |].
  eapply Qle_trans.
  - apply (fold_Qplus_at_most bound).
    apply Forall_forall. intros w Hw. apply in_map_iff in Hw.
    destruct Hw as [token [<- _]]. now apply spec_weight_at_most.
  - rewrite length_map, float_succ.
    pose proof (float_nonneg (List.length (spec_found sentence))). lra.
Qed.

(** X5: when no weight of the matrix exceeds a non-negative bound (one,
    for rows of unit length), no score exceeds that bound. *)
Theorem scores_at_most_largest_weight (bound : Q) (g g' : RandomState)
        (review_id : nat) (review_text : string) :
  matrix_consistent ->
  (0 <= bound)%Q ->
  weights_at_most bound ->
  randint g 0 (List.length reviews) = Ok (review_id, g') ->
  nth_error reviews review_id = Some review_text ->
  exists out sent_scores,
    summarize g = Ok (out, g') /\
    sentence_scores review_id review_text = Ok sent_scores /\
    forall p, In p sent_scores \/ In p (lowest out) \/ In p (highest out) ->
              (fst p <= bound)%Q.
Proof.
  intros Hm Hbound Hmax Hrand Htext.
  assert (Hrow : row_covers review_id).
  { apply matrix_consistent_row_covers; [assumption |].
    apply nth_error_Some. congruence. }
  do 2 eexists. split; [| split].
  - now apply (summarize_closed g g' review_id review_text).
  - now apply sentence_scores_closed.
  - intros p Hp.
    assert (Hin : In p (map (fun sentence =>
                               (spec_score review_id sentence, sentence))
                            (spec_retained review_text))).
    { destruct Hp as [Hp | [Hp | Hp]]; [assumption | |];
        cbn [lowest highest report] in Hp; apply In_firstn in Hp.
      - now apply (Permutation_in _ (sorted_Permutation _)).
      - now apply (Permutation_in _ (sorted_reverse_Permutation _)). }
    apply in_map_iff in Hin. destruct Hin as [sentence [<- _]].
    now apply spec_score_at_most.
Qed.

(** *** The two lists mirror each other *)

Lemma tuple_le_antisym_text (x y : Q * string) :
  tuple_le x y -> tuple_le y x -> snd x = snd y.
Proof.
  unfold tuple_le. rewrite !tuple_lt_false.
  intros [Hxy | [Exy Sxy]] [Hyx | [Eyx Syx]]; try lra.
  unfold String.ltb in Sxy, Syx.
  rewrite String.compare_antisym in Sxy.
  destruct (String.compare (snd x) (snd y)) eqn:C; simpl in *;
    try discriminate.
  now apply String.compare_eq_iff.
Qed.

Lemma sorted_unique (l1 : list (Q * string)) :
  forall l2,
    (forall x y, In x l1 -> In y l1 -> snd x = snd y -> x = y) ->
    StronglySorted tuple_le l1 -> StronglySorted tuple_le l2 ->
    Permutation l1 l2 -> l1 = l2.
Proof.
  induction l1 as [| a l1 IH]; intros l2 Hkey H1 H2 Hperm.
  - apply Permutation_nil in Hperm. now subst.
  - destruct l2 as [| b l2].
    + apply Permutation_sym, Permutation_nil in Hperm. discriminate.
    + inversion H1 as [| ? ? Hs1 Ha]; subst.
      inversion H2 as [| ? ? Hs2 Hb]; subst.
      rewrite Forall_forall in Ha, Hb.
      assert (Hb1 : In b (a :: l1)).
      { apply (Permutation_in _ (Permutation_sym Hperm)). now left. }
      assert (Hab : a = b).
      { destruct (Permutation_in _ Hperm (or_introl eq_refl)) as [Heq | Hin2];
          [now symmetry |].
        destruct Hb1 as [Heq | Hin1]; [assumption |].
        apply Hkey; [now left | now right |].
        apply tuple_le_antisym_text; [now apply Ha | now apply Hb]. }
      subst b. f_equal. apply IH; try assumption.
      * intros x y Hx Hy. apply Hkey; now right.
      * exact (Permutation_cons_inv Hperm).
Qed.

Lemma sorted_reverse_rev (l : list (Q * string)) :
  (forall x y, In x l -> In y l -> snd x = snd y -> x = y) ->
  sorted_reverse l = rev (sorted l).
Proof.
  intros Hkey. unfold sorted_reverse. f_equal.
  apply sorted_unique.
  - intros x y Hx Hy. apply Hkey.
    + apply in_rev. now apply (Permutation_in _ (sorted_Permutation _)).
    + apply in_rev. now apply (Permutation_in _ (sorted_Permutation _)).
  - apply sorted_StronglySorted.
  - apply sorted_StronglySorted.
  - eapply perm_trans; [apply sorted_Permutation |].
    eapply perm_trans; [apply Permutation_sym, Permutation_rev |].
    apply Permutation_sym, sorted_Permutation.
Qed.

(** X6: the highest list is the start of the ascending order read
    backwards; for a review with at most three retained sentences the
    highest list is the lowest list reversed. *)
Theorem highest_mirrors_lowest (g g' : RandomState) (review_id : nat)
        (review_text : string) :
  matrix_consistent ->
  randint g 0 (List.length reviews) = Ok (review_id, g') ->
  nth_error reviews review_id = Some review_text ->
  exists out sent_scores,
    summarize g = Ok (out, g') /\
    sentence_scores review_id review_text = Ok sent_scores /\
    highest out = firstn 3 (rev (sorted sent_scores)) /\
    (List.length (spec_retained review_text) <= 3 ->
     highest out = rev (lowest out)).
Proof.
  intros Hm Hrand Htext.
  assert (Hrow : row_covers review_id).
  { apply matrix_consistent_row_covers; [assumption |].
    apply nth_error_Some. congruence. }
  set (scores := map (fun sentence => (spec_score review_id sentence, sentence))
                     (spec_retained review_text)).
  assert (Hrev : sorted_reverse scores = rev (sorted scores)).
  { apply sorted_reverse_rev. intros x y Hx Hy Heq.
    apply in_map_iff in Hx, Hy.
    destruct Hx as [s [<- _]]. destruct Hy as [s' [<- _]].
    simpl in Heq. now subst s'. }
  exists (report scores), scores. split; [| split; [| split]].
  - now apply (summarize_closed g g' review_id review_text).
  - now apply sentence_scores_closed.
  - cbn [highest report]. now rewrite Hrev.
  - intros Hfew. cbn [highest lowest report]. rewrite Hrev.
    assert (Hlen : List.length (sorted scores) <= 3).
    { rewrite (Permutation_length (sorted_Permutation _)).
      unfold scores. now rewrite length_map. }
    rewrite !firstn_all2; [reflexivity | assumption |].
    now rewrite length_rev.
Qed.

End Summarizer.

(** ** One row of the matrix decides the scores *)

(** X7: two matrices with the same row for the review give the same
    scores, or the same exception: the weights of the other reviews are
    never read. *)
Theorem scores_depend_only_on_selected_row
        (sent_tokenize word_tokenize : string -> list string)
        (features : list string) (dtm dtm' : matrix) (review_id : nat)
        (review_text : string) :
  nth_error dtm review_id = nth_error dtm' review_id ->
  sentence_scores sent_tokenize word_tokenize features dtm
                  review_id review_text =
  sentence_scores sent_tokenize word_tokenize features dtm'
                  review_id review_text.
Proof.
  intros Hrow.
  assert (Hget : forall j,
             matrix_getitem dtm review_id j = matrix_getitem dtm' review_id j).
  { intros j. unfold matrix_getitem, getitem. now rewrite Hrow. }
  assert (Htoken : forall st token,
             score_token features dtm review_id st token =
             score_token features dtm' review_id st token).
  { intros [score token_count] token. unfold score_token.
    destruct (contains token features); [| reflexivity].
    destruct (index token features) as [j | e]; simpl; [| reflexivity].
    now rewrite Hget. }
  assert (Htokens : forall tokens st,
             for_each (score_token features dtm review_id) tokens st =
             for_each (score_token features dtm' review_id) tokens st).
  { induction tokens as [| token tokens IH]; intros st; simpl; [reflexivity |].
    rewrite Htoken.
    destruct (score_token features dtm' review_id st token); simpl;
      [apply IH | reflexivity]. }
  assert (Hvisit : forall acc sentence,
             visit_sentence word_tokenize features dtm review_id acc sentence =
             visit_sentence word_tokenize features dtm' review_id acc sentence).
  { intros acc sentence. unfold visit_sentence, score_sentence.
    now rewrite Htokens. }
  unfold sentence_scores.
  generalize (@nil (Q * string)) as acc.
  induction (sent_tokenize review_text) as [| sentence sentences IH];
    intros acc; simpl; [reflexivity |].
  rewrite Hvisit.
  destruct (visit_sentence word_tokenize features dtm' review_id acc sentence);
    simpl; [apply IH | reflexivity].
Qed.

(** ** The summarizer on the sample corpora *)

Local Abbreviation demo_scores :=
  (sentence_scores Demo.sent_tokenize Demo.word_tokenize
                   Demo.features Demo.dtm).
Local Abbreviation demo_summarize :=
  (summarize Demo.sent_tokenize Demo.word_tokenize Demo.RandomState
             Demo.randint Demo.reviews Demo.features Demo.dtm).
Local Abbreviation zoo_scores :=
  (sentence_scores Demo.sent_tokenize Demo.word_tokenize
                   Demo.zoo_features Demo.zoo_dtm).
Local Abbreviation zoo_summarize :=
  (summarize Demo.sent_tokenize Demo.word_tokenize Demo.RandomState
             Demo.randint Demo.zoo_reviews Demo.zoo_features Demo.zoo_dtm).
Local Abbreviation review0 :=
  "Zebras zoom past. Hello. Apples abound here. Zebras zoom. Go on."%string.
Local Abbreviation review1 := "Go on. Hello."%string.
Local Abbreviation zoo_review := "Zebras Zoom. Apples Abound."%string.

Lemma demo_matrix_consistent :
  matrix_consistent Demo.reviews Demo.features Demo.dtm.
Proof.
  split; [reflexivity | repeat constructor].
Defined.

Lemma zoo_matrix_consistent :
  matrix_consistent Demo.zoo_reviews Demo.zoo_features Demo.zoo_dtm.
Proof.
  split; [reflexivity | repeat constructor].
Defined.

Lemma demo_weights_nonneg : weights_nonneg Demo.dtm.
Proof.
  repeat constructor; apply Qle_bool_imp_le; reflexivity.
Defined.

Example demo_summary_of_review0 :
  demo_summarize 0 =
  Ok ({| lowest := [ (1 # 10, "Zebras zoom."%string);
                     (10 # 75, "Zebras zoom past."%string);
                     (2 # 10, "Apples abound here."%string) ];
         highest := [ (2 # 10, "Apples abound here."%string);
                      (10 # 75, "Zebras zoom past."%string);
                      (1 # 10, "Zebras zoom."%string) ];
         printed := [ LOWEST; "Zebras zoom."%string;
                      "Zebras zoom past."%string;
                      "Apples abound here."%string;
                      HIGHEST; "Apples abound here."%string;
                      "Zebras zoom past."%string;
                      "Zebras zoom."%string ] |}, 1).
Proof. reflexivity. Qed.

Lemma C1_witness :
  matrix_consistent Demo.reviews Demo.features Demo.dtm /\
  Demo.randint 0 0 (List.length Demo.reviews) = Ok (0, 1) /\
  nth_error Demo.reviews 0 = Some review0 /\
  demo_scores 0 review0 =
  Ok [ (10 # 75, "Zebras zoom past."%string);
       (2 # 10, "Apples abound here."%string);
       (1 # 10, "Zebras zoom."%string) ].
Proof.
  split; [exact demo_matrix_consistent |].
  split; [reflexivity |]. split; [reflexivity |].
  exact (proj1 (C1_score_is_damped_mean_weight
                  Demo.sent_tokenize Demo.word_tokenize Demo.RandomState
                  Demo.randint Demo.reviews Demo.features Demo.dtm
                  0 1 0 review0
                  demo_matrix_consistent eq_refl eq_refl)).
Defined.

Lemma C2_counterexample :
  exists out sent_scores,
    zoo_summarize 0 = Ok (out, 1) /\
    zoo_scores 0 zoo_review = Ok sent_scores /\
    sent_scores = [ (0%Q, "Zebras Zoom."%string);
                    (0%Q, "Apples Abound."%string) ] /\
    lowest out = [ (0%Q, "Apples Abound."%string);
                   (0%Q, "Zebras Zoom."%string) ] /\
    Spec.lowest sent_scores = sent_scores /\
    lowest out <> Spec.lowest sent_scores.
Proof.
  do 2 eexists.
  split; [reflexivity |]. split; [reflexivity |]. split; [reflexivity |].
  split; [reflexivity |]. split; [reflexivity |].
  discriminate.
Qed.

(** The same two sentences in the other order: now the highest list
    departs from the order of the document. *)
Example highest_ties_against_document_order :
  let sent_scores := [ (0%Q, "Apples Abound."%string);
                       (0%Q, "Zebras Zoom."%string) ] in
  zoo_scores 0 "Apples Abound. Zebras Zoom."%string = Ok sent_scores /\
  highest (report sent_scores) = [ (0%Q, "Zebras Zoom."%string);
                                   (0%Q, "Apples Abound."%string) ] /\
  Spec.highest sent_scores = sent_scores.
Proof. repeat split. Qed.

Lemma C2_witness :
  exists out,
    zoo_summarize 0 = Ok (out, 1) /\
    StronglySorted
      (fun a b => fst a == fst b -> String.leb (snd a) (snd b) = true)
      (lowest out) /\
    StronglySorted
      (fun a b => fst a == fst b -> String.leb (snd b) (snd a) = true)
      (highest out).
Proof.
  apply (C2_ties_ordered_by_sentence_text
           Demo.sent_tokenize Demo.word_tokenize Demo.RandomState
           Demo.randint Demo.zoo_reviews Demo.zoo_features Demo.zoo_dtm
           0 1 0 zoo_review).
  - exact zoo_matrix_consistent.
  - reflexivity.
  - reflexivity.
Defined.

Lemma C3_witness :
  exists out,
    demo_summarize 0 = Ok (out, 1) /\
    forall p, In p (lowest out) \/ In p (highest out) ->
              ~ String.length (snd p) <= 6.
Proof.
  apply (C3_no_short_sentence_reported
           Demo.sent_tokenize Demo.word_tokenize Demo.RandomState
           Demo.randint Demo.reviews Demo.features Demo.dtm
           0 1 0 review0).
  - exact demo_matrix_consistent.
  - reflexivity.
  - reflexivity.
Defined.

Lemma C4_counterexample :
  In "Hello."%string (Demo.sent_tokenize review0) /\
  String.length "Hello." = 6 /\
  exists out sent_scores,
    demo_scores 0 review0 = Ok sent_scores /\
    demo_summarize 0 = Ok (out, 1) /\
    ~ In "Hello."%string (map snd sent_scores) /\
    ~ In "Hello."%string (map snd (lowest out)) /\
    ~ In "Hello."%string (map snd (highest out)).
Proof.
  split; [simpl; tauto |]. split; [reflexivity |].
  do 2 eexists.
  split; [reflexivity |]. split; [reflexivity |].
  repeat split; simpl; intros H;
    repeat (destruct H as [H | H]; [discriminate H |]); exact H.
Qed.

Lemma C4_witness :
  exists sent_scores,
    demo_scores 0 review0 = Ok sent_scores /\
    demo_summarize 0 = Ok (report sent_scores, 1) /\
    map snd sent_scores =
    filter (fun sentence => 6 <? String.length sentence)
           (Demo.sent_tokenize review0) /\
    forall sentence,
      In sentence (Demo.sent_tokenize review0) ->
      (In sentence (map snd sent_scores) <-> 6 < String.length sentence) /\
      (String.length sentence = 6 -> ~ In sentence (map snd sent_scores)).
Proof.
  apply (C4_retained_iff_longer_than_six
           Demo.sent_tokenize Demo.word_tokenize Demo.RandomState
           Demo.randint Demo.reviews Demo.features Demo.dtm
           0 1 0 review0).
  - exact demo_matrix_consistent.
  - reflexivity.
  - reflexivity.
Defined.

Lemma C5_witness :
  exists out,
    demo_summarize 0 = Ok (out, 1) /\
    StronglySorted (fun a b => (fst a <= fst b)%Q) (lowest out) /\
    StronglySorted (fun a b => (fst b <= fst a)%Q) (highest out) /\
    List.length (lowest out) <= 3 /\
    List.length (highest out) <= 3.
Proof.
  apply (C5_lists_ranked_and_bounded
           Demo.sent_tokenize Demo.word_tokenize Demo.RandomState
           Demo.randint Demo.reviews Demo.features Demo.dtm
           0 1 0 review0).
  - exact demo_matrix_consistent.
  - reflexivity.
  - reflexivity.
Defined.

Lemma C6_witness :
  Demo.randint 0 0 (List.length Demo.reviews) = Ok (0, 1) /\
  Demo.randint 2 0 (List.length Demo.reviews) = Ok (0, 3) /\
  exists out,
    demo_summarize 0 = Ok (out, 1) /\ demo_summarize 2 = Ok (out, 3).
Proof.
  split; [reflexivity |]. split; [reflexivity |].
  apply (C6_same_document_same_lists
           Demo.sent_tokenize Demo.word_tokenize Demo.RandomState
           Demo.randint Demo.reviews Demo.features Demo.dtm
           0 1 2 3 0 review0).
  - exact demo_matrix_consistent.
  - reflexivity.
  - reflexivity.
  - reflexivity.
Defined.

Lemma C7_witness :
  Demo.sent_tokenize review1 = [ "Go on."; "Hello." ]%string /\
  demo_summarize 1 =
  Ok ({| lowest := []; highest := []; printed := [LOWEST; HIGHEST] |}, 2).
Proof.
  split; [reflexivity |].
  apply (C7_no_qualifying_sentence
           Demo.sent_tokenize Demo.word_tokenize Demo.RandomState
           Demo.randint Demo.reviews Demo.features Demo.dtm
           1 2 1 review1).
  - reflexivity.
  - reflexivity.
  - repeat constructor.
Defined.

Lemma C8_witness :
  List.length (spec_retained Demo.sent_tokenize zoo_review) < 3 /\
  exists out sent_scores,
    zoo_summarize 0 = Ok (out, 1) /\
    zoo_scores 0 zoo_review = Ok sent_scores /\
    map snd sent_scores = spec_retained Demo.sent_tokenize zoo_review /\
    Permutation (lowest out) sent_scores /\
    Permutation (highest out) sent_scores /\
    (forall sentence,
        spec_retained Demo.sent_tokenize zoo_review = [sentence] ->
        map snd (lowest out) = [sentence] /\
        map snd (highest out) = [sentence]).
Proof.
  split; [simpl; lia |].
  apply (C8_short_document_reports_all
           Demo.sent_tokenize Demo.word_tokenize Demo.RandomState
           Demo.randint Demo.zoo_reviews Demo.zoo_features Demo.zoo_dtm
           0 1 0 zoo_review).
  - exact zoo_matrix_consistent.
  - reflexivity.
  - reflexivity.
  - simpl. lia.
Defined.

Lemma C10_witness :
  weights_nonneg Demo.dtm /\
  exists out sent_scores,
    demo_summarize 0 = Ok (out, 1) /\
    demo_scores 0 review0 = Ok sent_scores /\
    (forall p, In p sent_scores \/ In p (lowest out) \/ In p (highest out) ->
               (0 <= fst p)%Q) /\
    (forall p,
        In p sent_scores ->
        Forall (fun token => contains token Demo.features = false)
               (Demo.word_tokenize (snd p)) ->
        fst p = 0%Q) /\
    (forall sentence,
        In sentence (spec_retained Demo.sent_tokenize review0) ->
        Forall (fun token => contains token Demo.features = false)
               (Demo.word_tokenize sentence) ->
        In (0%Q, sentence) sent_scores).
Proof.
  split; [exact demo_weights_nonneg |].
  apply (C10_scores_nonneg
           Demo.sent_tokenize Demo.word_tokenize Demo.RandomState
           Demo.randint Demo.reviews Demo.features Demo.dtm
           0 1 0 review0).
  - exact demo_matrix_consistent.
  - exact demo_weights_nonneg.
  - reflexivity.
  - reflexivity.
Defined.

(** ** Counting tokens *)

Lemma counter_get_incr (x y : string) (c : counter) :
  counter_get (counter_incr x c) y =
  if String.eqb x y then counter_get c y + 1 else counter_get c y.
Proof.
  induction c as [| [k n] c IH]; simpl.
  - destruct (String.eqb x y); reflexivity.
  - destruct (String.eqb k x) eqn:Ekx; simpl.
    + apply String.eqb_eq in Ekx. subst k.
      destruct (String.eqb x y); reflexivity.
    + rewrite IH. destruct (String.eqb k y) eqn:Eky; [| reflexivity].
      apply String.eqb_eq in Eky. subst k.
      now rewrite String.eqb_sym, Ekx.
Qed.

Lemma counter_get_fold (l : list string) (y : string) :
  forall c,
    counter_get (fold_left (fun c x => counter_incr x c) l c) y =
    counter_get c y + count_occ string_dec l y.
Proof.
  induction l as [| x l IH]; intros c; simpl.
  - lia.
  - rewrite IH, counter_get_incr.
    destruct (string_dec x y) as [Heq | Hne].
    + subst x. rewrite String.eqb_refl. lia.
    + apply String.eqb_neq in Hne. rewrite Hne. lia.
Qed.

Lemma counter_incr_keys (x k : string) (c : counter) :
  In k (map fst (counter_incr x c)) <-> k = x \/ In k (map fst c).
Proof.
  induction c as [| [k' n] c IH]; simpl.
  - intuition.
  - destruct (String.eqb k' x) eqn:E; simpl.
    + apply String.eqb_eq in E. subst k'. intuition.
    + rewrite IH. intuition.
Qed.

Lemma counter_incr_NoDup (x : string) (c : counter) :
  NoDup (map fst c) -> NoDup (map fst (counter_incr x c)).
Proof.
  induction c as [| [k n] c IH]; simpl; intros Hnodup.
  - repeat constructor. intros [].
  - destruct (String.eqb k x) eqn:E; simpl; [assumption |].
    inversion Hnodup as [| ? ? Hnotin Hrest]; subst. constructor.
    + rewrite counter_incr_keys. intros [-> | Hin]; [| contradiction].
      rewrite String.eqb_refl in E. discriminate.
    + now apply IH.
Qed.

Lemma counter_incr_sum (x : string) (c : counter) :
  list_sum (map snd (counter_incr x c)) = list_sum (map snd c) + 1.
Proof.
  induction c as [| [k n] c IH]; simpl; [reflexivity |].
  destruct (String.eqb k x); simpl; [| rewrite IH]; lia.
Qed.

Lemma counter_incr_positive (x : string) (c : counter) :
  Forall (fun item => 1 <= snd item) c ->
  Forall (fun item => 1 <= snd item) (counter_incr x c).
Proof.
  induction 1 as [| [k n] c Hn Hc IH]; simpl.
  - repeat constructor.
  - destruct (String.eqb k x); constructor; simpl in *; try assumption; lia.
Qed.

Lemma Counter_fold_invariant (l : list string) :
  forall c,
    NoDup (map fst c) ->
    Forall (fun item => 1 <= snd item) c ->
    let c' := fold_left (fun c x => counter_incr x c) l c in
    NoDup (map fst c') /\
    Forall (fun item => 1 <= snd item) c' /\
    list_sum (map snd c') = list_sum (map snd c) + List.length l.
Proof.
  induction l as [| x l IH]; intros c Hnodup Hpos; cbv zeta; simpl.
  - repeat split; [assumption | assumption | lia].
  - destruct (IH (counter_incr x c) (counter_incr_NoDup x c Hnodup)
                 (counter_incr_positive x c Hpos))
      as [Hkeys [Hpos' Hsum]].
    repeat split; [assumption | assumption |].
    rewrite Hsum, counter_incr_sum. lia.
Qed.

Lemma counter_get_In (c : counter) (t : string) (n : nat) :
  NoDup (map fst c) -> In (t, n) c -> counter_get c t = n.
Proof.
  induction c as [| [k m] c IH]; simpl; intros Hnodup Hin; [contradiction |].
  inversion Hnodup as [| ? ? Hnotin Hrest]; subst.
  destruct Hin as [Heq | Hin].
  - injection Heq as -> ->. now rewrite String.eqb_refl.
  - destruct (String.eqb k t) eqn:E.
    + apply String.eqb_eq in E. subst k. exfalso. apply Hnotin.
      apply in_map_iff. now exists (t, n).
    + now apply IH.
Qed.

Lemma counter_get_pos_In (c : counter) (t : string) :
  0 < counter_get c t -> In (t, counter_get c t) c.
Proof.
  induction c as [| [k m] c IH]; simpl; intros Hpos; [lia |].
  destruct (String.eqb k t) eqn:E.
  - apply String.eqb_eq in E. subst k. now left.
  - right. now apply IH.
Qed.

Lemma Counter_NoDup (tokens : list string) : NoDup (map fst (Counter tokens)).
Proof.
  apply (Counter_fold_invariant tokens []); constructor.
Qed.

Lemma Counter_positive (tokens : list string) :
  Forall (fun item => 1 <= snd item) (Counter tokens).
Proof.
  apply (Counter_fold_invariant tokens []); constructor.
Qed.

Lemma Counter_get (tokens : list string) (t : string) :
  counter_get (Counter tokens) t = count_occ string_dec tokens t.
Proof.
  unfold Counter. now rewrite counter_get_fold.
Qed.

Lemma Counter_items (tokens : list string) (t : string) (n : nat) :
  In (t, n) (Counter tokens) <->
  In t tokens /\ n = count_occ string_dec tokens t.
Proof.
  split.
  - intros Hin.
    pose proof (counter_get_In _ _ _ (Counter_NoDup tokens) Hin) as Hget.
    rewrite Counter_get in Hget.
    pose proof (Counter_positive tokens) as Hpos.
    rewrite Forall_forall in Hpos. specialize (Hpos _ Hin). simpl in Hpos.
    split; [| now symmetry].
    apply (count_occ_In string_dec). lia.
  - intros [Hin ->]. rewrite <- Counter_get. apply counter_get_pos_In.
    rewrite Counter_get. now apply (count_occ_In string_dec).
Qed.

(** X8: [Counter(tokens)] has one item per distinct token, and the count
    of a token is the number of its occurrences: [(t, n)] is an item
    exactly when [t] occurs in [tokens], [n] times in all, and [c[t]] is
    zero for a token that does not occur. *)
Theorem Counter_counts_occurrences (tokens : list string) :
  NoDup (map fst (Counter tokens)) /\
  (forall t n, In (t, n) (Counter tokens) <->
               In t tokens /\ n = count_occ string_dec tokens t) /\
  (forall t, counter_get (Counter tokens) t = count_occ string_dec tokens t) /\
  (forall t, ~ In t tokens <-> counter_get (Counter tokens) t = 0).
Proof.
  split; [apply Counter_NoDup |]. split; [apply Counter_items |].
  split; [apply Counter_get |].
  intros t. rewrite Counter_get. apply (count_occ_not_In string_dec).
Qed.

(** X9: the counts of [Counter(tokens)] add up to the number of tokens. *)
Theorem Counter_counts_add_up (tokens : list string) :
  list_sum (map snd (Counter tokens)) = List.length tokens.
Proof.
  destruct (Counter_fold_invariant tokens [] (NoDup_nil _) (Forall_nil _))
    as [_ [_ Hsum]].
  exact Hsum.
Qed.

(** ** Sorting the items of a counter *)

Lemma item_le_compare (x y : string * nat) :
  item_le x y <->
  String.compare (fst x) (fst y) = Lt \/
  (String.compare (fst x) (fst y) = Eq /\ snd x <= snd y).
Proof.
  unfold item_le, item_lt.
  destruct (String.eqb (fst y) (fst x)) eqn:E.
  - apply String.eqb_eq in E. rewrite E, string_compare_refl, Nat.ltb_ge.
    split; [intros H; right; now split | intros [H | [_ H]]];
      [discriminate | assumption].
  - apply String.eqb_neq in E. unfold String.ltb.
    rewrite String.compare_antisym.
    destruct (String.compare (fst x) (fst y)) eqn:C; simpl.
    + apply String.compare_eq_iff in C. congruence.
    + split; [now left | reflexivity].
    + split; [discriminate | intros [H | [H _]]; discriminate].
Qed.

Lemma item_lt_le (x y : string * nat) : item_lt x y = true -> item_le x y.
Proof.
  rewrite item_le_compare. unfold item_lt.
  destruct (String.eqb (fst x) (fst y)) eqn:E.
  - apply String.eqb_eq in E. rewrite E, string_compare_refl, Nat.ltb_lt.
    intros H. right. split; [reflexivity | lia].
  - unfold String.ltb.
    destruct (String.compare (fst x) (fst y)); try discriminate. now left.
Qed.

Lemma item_le_trans (x y z : string * nat) :
  item_le x y -> item_le y z -> item_le x z.
Proof.
  rewrite !item_le_compare.
  intros [Hxy | [Hxy Nxy]] [Hyz | [Hyz Nyz]].
  - left. exact (string_compare_lt_trans _ _ _ Hxy Hyz).
  - apply String.compare_eq_iff in Hyz. rewrite <- Hyz. now left.
  - apply String.compare_eq_iff in Hxy. rewrite Hxy. now left.
  - apply String.compare_eq_iff in Hxy, Hyz. rewrite Hxy, Hyz.
    right. split; [apply string_compare_refl | lia].
Qed.

Lemma insort_item_Permutation (x : string * nat) (l : list (string * nat)) :
  Permutation (insort_item x l) (x :: l).
Proof.
  induction l as [| y l IH]; simpl.
  - apply Permutation_refl.
  - destruct (item_lt x y).
    + apply Permutation_refl.
    + eapply perm_trans; [apply perm_skip, IH | apply perm_swap].
Qed.

Lemma insort_item_StronglySorted (x : string * nat) (l : list (string * nat)) :
  StronglySorted item_le l -> StronglySorted item_le (insort_item x l).
Proof.
  induction 1 as [| y l Hsorted IH Hall]; simpl.
  - repeat constructor.
  - destruct (item_lt x y) eqn:E.
    + apply item_lt_le in E. constructor.
      * now constructor.
      * constructor; [assumption |].
        eapply Forall_impl; [| exact Hall].
        intros z Hz. exact (item_le_trans _ _ _ E Hz).
    + constructor; [assumption |].
      apply (Permutation_Forall
               (Permutation_sym (insort_item_Permutation x l))).
      constructor; assumption.
Qed.

Lemma sorted_items_fold (l : list (string * nat)) :
  forall acc,
    StronglySorted item_le acc ->
    let out := fold_left (fun a x => insort_item x a) l acc in
    StronglySorted item_le out /\ Permutation out (l ++ acc).
Proof.
  induction l as [| x l IH]; intros acc Hacc; cbv zeta; simpl.
  - split; [assumption | apply Permutation_refl].
  - destruct (IH _ (insort_item_StronglySorted x acc Hacc)) as [Hs Hp].
    split; [assumption |].
    eapply perm_trans; [exact Hp |].
    eapply perm_trans.
    + apply Permutation_app_head, insort_item_Permutation.
    + apply Permutation_sym, Permutation_middle.
Qed.

Lemma sorted_items_StronglySorted (l : list (string * nat)) :
  StronglySorted item_le (sorted_items l).
Proof.
  apply (sorted_items_fold l []). constructor.
Qed.

Lemma sorted_items_Permutation (l : list (string * nat)) :
  Permutation (sorted_items l) l.
Proof.
  rewrite <- (app_nil_r l) at 2. apply (sorted_items_fold l []). constructor.
Qed.

(** With distinct keys, sorted items are in strictly ascending order of
    key. *)
Lemma StronglySorted_distinct_keys (l : list (string * nat)) :
  StronglySorted item_le l -> NoDup (map fst l) ->
  StronglySorted (fun a b => String.ltb (fst a) (fst b) = true) l.
Proof.
  induction 1 as [| a l Hsorted IH Hall]; simpl; intros Hnodup.
  - constructor.
  - inversion Hnodup as [| ? ? Hnotin Hrest]; subst.
    constructor; [now apply IH |].
    rewrite Forall_forall in *. intros b Hb.
    specialize (Hall b Hb). apply item_le_compare in Hall.
    unfold String.ltb. destruct Hall as [-> | [Heq _]]; [reflexivity |].
    apply String.compare_eq_iff in Heq. exfalso. apply Hnotin.
    rewrite Heq. now apply in_map.
Qed.

Lemma strictly_sorted_unique (l1 : list (string * nat)) :
  forall l2,
    StronglySorted (fun a b => String.ltb (fst a) (fst b) = true) l1 ->
    StronglySorted (fun a b => String.ltb (fst a) (fst b) = true) l2 ->
    (forall x, In x l1 <-> In x l2) ->
    l1 = l2.
Proof.
  assert (Hirrefl : forall a : string * nat,
             String.ltb (fst a) (fst a) = true -> False).
  { intros a. unfold String.ltb. rewrite string_compare_refl. discriminate. }
  assert (Hasym : forall a b : string * nat,
             String.ltb (fst a) (fst b) = true ->
             String.ltb (fst b) (fst a) = true -> False).
  { intros a b. unfold String.ltb. rewrite String.compare_antisym.
    destruct (String.compare (fst b) (fst a)); simpl; discriminate. }
  induction l1 as [| a l1 IH]; intros [| b l2] H1 H2 Hsame.
  - reflexivity.
  - exfalso. apply (proj2 (Hsame b)). now left.
  - exfalso. apply (proj1 (Hsame a)). now left.
  - inversion H1 as [| ? ? Hs1 Ha]; subst.
    inversion H2 as [| ? ? Hs2 Hb]; subst.
    rewrite Forall_forall in Ha, Hb.
    assert (Hab : a = b).
    { destruct (proj1 (Hsame a) (or_introl eq_refl)) as [Heq | Hin2];
        [now symmetry |].
      destruct (proj2 (Hsame b) (or_introl eq_refl)) as [Heq | Hin1];
        [assumption |].
      exfalso. exact (Hasym a b (Ha _ Hin1) (Hb _ Hin2)). }
    subst b. f_equal. apply IH; try assumption.
    intros x. split; intros Hx.
    + destruct (proj1 (Hsame x) (or_intror Hx)) as [Heq | Hin]; [| assumption].
      subst x. exfalso. exact (Hirrefl a (Ha _ Hx)).
    + destruct (proj2 (Hsame x) (or_intror Hx)) as [Heq | Hin]; [| assumption].
      subst x. exfalso. exact (Hirrefl a (Hb _ Hx)).
Qed.

Lemma sorted_Counter_strict (tokens : list string) :
  StronglySorted (fun a b => String.ltb (fst a) (fst b) = true)
                 (sorted_items (Counter tokens)).
Proof.
  apply StronglySorted_distinct_keys.
  - apply sorted_items_StronglySorted.
  - apply (Permutation_NoDup
             (Permutation_map fst
                (Permutation_sym (sorted_items_Permutation _)))).
    apply Counter_NoDup.
Qed.

(** X10: the listing [sorted(c.items())[:25]] of the token counts is in
    strictly ascending order of token, so no token is listed twice and
    tokens that differ only by case are listed apart; every listed pair is
    a token with its number of occurrences, and the listing has
    twenty-five pairs, or one per distinct token when there are fewer. *)
Theorem token_counts_strictly_ascending (clean : list string) :
  StronglySorted (fun a b => String.ltb (fst a) (fst b) = true)
                 (token_counts clean) /\
  (forall t n, In (t, n) (token_counts clean) ->
               In t clean /\ n = count_occ string_dec clean t) /\
  List.length (token_counts clean) =
  Nat.min 25 (List.length (nodup string_dec clean)).
Proof.
  unfold token_counts. split; [| split].
  - apply StronglySorted_firstn, sorted_Counter_strict.
  - intros t n Hin. apply In_firstn in Hin.
    apply (Permutation_in _ (sorted_items_Permutation _)) in Hin.
    now apply Counter_items.
  - rewrite length_firstn. f_equal.
    rewrite (Permutation_length (sorted_items_Permutation _)).
    rewrite <- (length_map fst).
    apply Permutation_length, NoDup_Permutation.
    + apply Counter_NoDup.
    + apply NoDup_nodup.
    + intros t. rewrite nodup_In, in_map_iff. split.
      * intros [[t' n] [<- Hin]]. now apply Counter_items in Hin.
      * intros Hin. exists (t, count_occ string_dec clean t).
        split; [reflexivity |]. now apply Counter_items.
Qed.

(** X11: the listing of the token counts depends on the tokens only up
    to their order: two token lists that are permutations of each other
    have the same listing. *)
Theorem token_counts_order_independent (clean clean' : list string) :
  Permutation clean clean' -> token_counts clean = token_counts clean'.
Proof.
  intros Hperm. unfold token_counts. f_equal.
  apply strictly_sorted_unique; try apply sorted_Counter_strict.
  intros [t n]. split; intros Hin;
    apply (Permutation_in _ (sorted_items_Permutation _)) in Hin;
    apply (Permutation_in _ (Permutation_sym (sorted_items_Permutation _)));
    apply Counter_items in Hin; apply Counter_items;
    destruct Hin as [Hin ->]; split.
  - exact (Permutation_in _ Hperm Hin).
  - now apply (Permutation_count_occ string_dec).
  - exact (Permutation_in _ (Permutation_sym Hperm) Hin).
  - symmetry. now apply (Permutation_count_occ string_dec).
Qed.

(** ** Cleaning the tokens *)

Lemma search_letters_Some (token : string) :
  (exists found, search_letters token = Some found) <->
  exists c rest, token = String c rest /\ is_letter c = true.
Proof.
  unfold search_letters. destruct token as [| c rest]; simpl.
  - split; [intros [found H]; discriminate | intros [c [rest [H _]]]].
    discriminate.
  - destruct (is_letter c) eqn:E.
    + split; [intros _; now exists c, rest | intros _; eauto].
    + split; [intros [found H]; discriminate |].
      intros [c' [rest' [H Hc]]]. injection H as <- <-. congruence.
Qed.

Lemma clean_tokens_In (tokens : list string) (t : string) :
  In t (clean_tokens tokens) <->
  In t tokens /\ exists c rest, t = String c rest /\ is_letter c = true.
Proof.
  unfold clean_tokens. rewrite filter_In, <- search_letters_Some.
  destruct (search_letters t) as [found |].
  - intuition eauto.
  - split; [intros [_ H]; discriminate | intros [_ [found H]]; discriminate].
Qed.

Lemma count_occ_filter (f : string -> bool) (l : list string) (t : string) :
  f t = true ->
  count_occ string_dec (filter f l) t = count_occ string_dec l t.
Proof.
  intros Ht. induction l as [| x l IH]; simpl; [reflexivity |].
  destruct (string_dec x t) as [-> | Hne].
  - rewrite Ht. simpl. destruct (string_dec t t); [now rewrite IH | congruence].
  - destruct (f x); simpl; [| assumption].
    destruct (string_dec x t); [congruence | assumption].
Qed.

(** X12: a token is kept by the cleaning step exactly when its first
    character is one of the letters [a-z] and [A-Z], so the empty token
    and tokens that start with a digit or a punctuation mark are dropped;
    in the listing of the counts of the cleaned tokens every token starts
    with a letter and is paired with the number of its occurrences among
    all the tokens. *)
Theorem cleaned_counts_are_raw_counts (tokens : list string) :
  (forall t, In t (clean_tokens tokens) <->
             In t tokens /\
             exists c rest, t = String c rest /\ is_letter c = true) /\
  (forall t n,
      In (t, n) (token_counts (clean_tokens tokens)) ->
      (exists c rest, t = String c rest /\ is_letter c = true) /\
      In t tokens /\ n = count_occ string_dec tokens t).
Proof.
  split; [apply clean_tokens_In |].
  intros t n Hin. unfold token_counts in Hin. apply In_firstn in Hin.
  apply (Permutation_in _ (sorted_items_Permutation _)) in Hin.
  apply Counter_items in Hin. destruct Hin as [Hin ->].
  pose proof (proj1 (clean_tokens_In tokens t) Hin) as [Hraw Hletter].
  split; [assumption |]. split; [assumption |].
  unfold clean_tokens. apply count_occ_filter.
  apply search_letters_Some in Hletter. destruct Hletter as [found ->].
  reflexivity.
Qed.

Section WalkthroughFacts.

Variable sent_tokenize : string -> list string.
Variable word_tokenize : string -> list string.
Variable stem : string -> string.
Variable pos_tag : list string -> list (string * string).
Variable ne_chunk : list (string * string) -> list chunk.

(** ** Removing the stopwords *)

Lemma contains_false_iff (x : string) (l : list string) :
  contains x l = false <-> ~ In x l.
Proof.
  unfold contains. split.
  - intros H Hin. assert (Ht : existsb (String.eqb x) l = true).
    { apply existsb_exists. exists x. split; [assumption |].
      apply String.eqb_refl. }
    congruence.
  - intros H. destruct (existsb (String.eqb x) l) eqn:E; [| reflexivity].
    apply existsb_exists in E. destruct E as [y [Hy Heq]].
    apply String.eqb_eq in Heq. subst y. contradiction.
Qed.

(** X13: when stemming a stem again changes nothing for the tokens at
    hand, the second stemming of line 120 is idle and the result holds no
    stemmed stopword: in particular the stem of a stopword never comes
    out. *)
Theorem no_stemmed_stopword_survives (stopwords clean : list string) :
  Forall (fun token => stem (stem token) = stem token) clean ->
  let kept := stemmed_tokens_no_stop stem stopwords (stemmed_tokens stem clean)
  in
  kept =
  filter (fun t => negb (contains t (stemmed_stops stem stopwords)))
         (stemmed_tokens stem clean) /\
  Forall (fun t => contains t (stemmed_stops stem stopwords) = false) kept /\
  (forall word, In word stopwords -> ~ In (stem word) kept).
Proof.
  intros Hidem. cbv zeta.
  assert (Hkept :
            stemmed_tokens_no_stop stem stopwords (stemmed_tokens stem clean) =
            filter (fun t => negb (contains t (stemmed_stops stem stopwords)))
                   (stemmed_tokens stem clean)).
  { unfold stemmed_tokens_no_stop, stemmed_tokens.
    induction Hidem as [| token clean Htoken Hclean IH]; simpl; [reflexivity |].
    destruct (negb (contains (stem token) (stemmed_stops stem stopwords)));
      simpl; [| assumption].
    now rewrite Htoken, IH. }
  assert (Hfree : Forall (fun t => contains t (stemmed_stops stem stopwords)
                                   = false)
                         (stemmed_tokens_no_stop stem stopwords
                            (stemmed_tokens stem clean))).
  { rewrite Hkept. apply Forall_forall. intros t Ht.
    apply filter_In in Ht. destruct Ht as [_ Ht].
    now apply negb_true_iff in Ht. }
  split; [assumption |]. split; [assumption |].
  intros word Hword Hin. rewrite Forall_forall in Hfree.
  specialize (Hfree _ Hin). apply contains_false_iff in Hfree.
  apply Hfree. unfold stemmed_stops. now apply in_map.
Qed.

(** ** Extracting the entities *)

Lemma extract_entities_fold (sentences : list string) :
  forall entities,
    fold_left
      (fun entities sentence =>
         let chunks := ne_chunk (pos_tag (word_tokenize sentence)) in
         entities ++ filter has_label chunks)
      sentences entities =
    entities ++
    flat_map (fun sentence =>
                filter has_label (ne_chunk (pos_tag (word_tokenize sentence))))
             sentences.
Proof.
  induction sentences as [| sentence sentences IH]; intros entities; simpl.
  - now rewrite app_nil_r.
  - rewrite IH, <- app_assoc. reflexivity.
Qed.

(** X14: [extract_entities] returns, in the order of the text, exactly the
    chunks of its sentences that carry a label: no plain tagged word is
    returned and no labelled chunk is lost; a text without sentences gives
    the empty list. *)
Theorem extract_entities_keeps_labelled_chunks (text : string) :
  let entities :=
    extract_entities sent_tokenize word_tokenize pos_tag ne_chunk text in
  entities =
  flat_map (fun sentence =>
              filter has_label (ne_chunk (pos_tag (word_tokenize sentence))))
           (sent_tokenize text) /\
  Forall (fun entity => exists label leaves, entity = Tree label leaves)
         entities /\
  (forall entity,
      In entity entities <->
      exists sentence,
        In sentence (sent_tokenize text) /\
        In entity (ne_chunk (pos_tag (word_tokenize sentence))) /\
        has_label entity = true) /\
  (sent_tokenize text = [] -> entities = []).
Proof.
  cbv zeta. unfold extract_entities. rewrite extract_entities_fold.
  cbn [app]. split; [reflexivity |].
  assert (Hin : forall entity,
             In entity
                (flat_map (fun sentence =>
                             filter has_label
                                    (ne_chunk (pos_tag (word_tokenize sentence))))
                          (sent_tokenize text)) <->
             exists sentence,
               In sentence (sent_tokenize text) /\
               In entity (ne_chunk (pos_tag (word_tokenize sentence))) /\
               has_label entity = true).
  { intros entity. rewrite in_flat_map. split.
    - intros [sentence [Hs He]]. apply filter_In in He. now exists sentence.
    - intros [sentence [Hs He]]. exists sentence. split; [assumption |].
      now apply filter_In. }
  split; [| split; [assumption |]].
  - apply Forall_forall. intros entity He. apply Hin in He.
    destruct He as [_ [_ [_ Hlabel]]].
    destruct entity as [word tag | label leaves]; [discriminate | eauto].
  - intros ->. reflexivity.
Qed.

End WalkthroughFacts.

(** ** The rest of the walkthrough on sample inputs *)

Local Abbreviation long_review :=
  "Zebras zoom past. Apples abound here. Zebras zoom. Past apples zoom. Hello zebras."%string.
Local Abbreviation long_scores :=
  (sentence_scores Demo.sent_tokenize Demo.word_tokenize
                   Demo.features Demo.long_dtm).
Local Abbreviation long_summarize :=
  (summarize Demo.sent_tokenize Demo.word_tokenize Demo.RandomState
             Demo.randint Demo.long_reviews Demo.features Demo.long_dtm).

Lemma long_matrix_consistent :
  matrix_consistent Demo.long_reviews Demo.features Demo.long_dtm.
Proof.
  split; [reflexivity | repeat constructor].
Defined.

Example long_summary :
  long_summarize 0 =
  Ok ({| lowest := [ (1 # 10, "Zebras zoom."%string);
                     (10 # 75, "Past apples zoom."%string);
                     (10 # 75, "Zebras zoom past."%string) ];
         highest := [ (4 # 10, "Hello zebras."%string);
                      (2 # 10, "Apples abound here."%string);
                      (10 # 75, "Zebras zoom past."%string) ];
         printed := [ LOWEST; "Zebras zoom."%string;
                      "Past apples zoom."%string;
                      "Zebras zoom past."%string;
                      HIGHEST; "Hello zebras."%string;
                      "Apples abound here."%string;
                      "Zebras zoom past."%string ] |}, 1).
Proof. reflexivity. Qed.

Lemma scoring_raises_only_IndexError_witness :
  sentence_scores Demo.sent_tokenize Demo.word_tokenize
                  Demo.features Demo.narrow_dtm 0 review0 =
  Raise IndexError /\
  IndexError = IndexError.
Proof.
  split; [reflexivity |].
  exact (scoring_raises_only_IndexError
           Demo.sent_tokenize Demo.word_tokenize
           Demo.features Demo.narrow_dtm 0 review0 IndexError eq_refl).
Defined.

Lemma lists_hold_the_extremes_witness :
  exists out sent_scores,
    long_summarize 0 = Ok (out, 1) /\
    long_scores 0 long_review = Ok sent_scores /\
    (forall p q, In p (lowest out) -> In q sent_scores ->
                 In q (lowest out) \/ (fst p <= fst q)%Q) /\
    (forall p q, In p (highest out) -> In q sent_scores ->
                 In q (highest out) \/ (fst q <= fst p)%Q).
Proof.
  apply (lists_hold_the_extremes
           Demo.sent_tokenize Demo.word_tokenize Demo.RandomState
           Demo.randint Demo.long_reviews Demo.features Demo.long_dtm
           0 1 0 long_review).
  - exact long_matrix_consistent.
  - reflexivity.
  - reflexivity.
Defined.

Lemma lists_have_min_three_length_witness :
  List.length (spec_retained Demo.sent_tokenize long_review) = 5 /\
  exists out,
    long_summarize 0 = Ok (out, 1) /\
    let retained :=
      List.length (spec_retained Demo.sent_tokenize long_review) in
    List.length (lowest out) = Nat.min 3 retained /\
    List.length (highest out) = Nat.min 3 retained /\
    List.length (printed out) = 2 + 2 * Nat.min 3 retained.
Proof.
  split; [reflexivity |].
  apply (lists_have_min_three_length
           Demo.sent_tokenize Demo.word_tokenize Demo.RandomState
           Demo.randint Demo.long_reviews Demo.features Demo.long_dtm
           0 1 0 long_review).
  - exact long_matrix_consistent.
  - reflexivity.
  - reflexivity.
Defined.

Lemma demo_weights_at_most_one : weights_at_most Demo.dtm 1.
Proof.
  repeat constructor; apply Qle_bool_imp_le; reflexivity.
Defined.

Lemma scores_at_most_largest_weight_witness :
  weights_at_most Demo.dtm 1 /\
  exists out sent_scores,
    demo_summarize 0 = Ok (out, 1) /\
    demo_scores 0 review0 = Ok sent_scores /\
    forall p, In p sent_scores \/ In p (lowest out) \/ In p (highest out) ->
              (fst p <= 1)%Q.
Proof.
  split; [exact demo_weights_at_most_one |].
  apply (scores_at_most_largest_weight
           Demo.sent_tokenize Demo.word_tokenize Demo.RandomState
           Demo.randint Demo.reviews Demo.features Demo.dtm
           1 0 1 0 review0).
  - exact demo_matrix_consistent.
  - apply Qle_bool_imp_le. reflexivity.
  - exact demo_weights_at_most_one.
  - reflexivity.
  - reflexivity.
Defined.

Lemma highest_mirrors_lowest_witness :
  List.length (spec_retained Demo.sent_tokenize review0) <= 3 /\
  exists out sent_scores,
    demo_summarize 0 = Ok (out, 1) /\
    demo_scores 0 review0 = Ok sent_scores /\
    highest out = firstn 3 (rev (sorted sent_scores)) /\
    (List.length (spec_retained Demo.sent_tokenize review0) <= 3 ->
     highest out = rev (lowest out)).
Proof.
  split; [simpl; lia |].
  apply (highest_mirrors_lowest
           Demo.sent_tokenize Demo.word_tokenize Demo.RandomState
           Demo.randint Demo.reviews Demo.features Demo.dtm
           0 1 0 review0).
  - exact demo_matrix_consistent.
  - reflexivity.
  - reflexivity.
Defined.

Lemma scores_depend_only_on_selected_row_witness :
  nth_error Demo.dtm 0 = nth_error Demo.other_dtm 0 /\
  Demo.dtm <> Demo.other_dtm /\
  demo_scores 0 review0 =
  sentence_scores Demo.sent_tokenize Demo.word_tokenize
                  Demo.features Demo.other_dtm 0 review0.
Proof.
  split; [reflexivity |]. split; [discriminate |].
  apply (scores_depend_only_on_selected_row
           Demo.sent_tokenize Demo.word_tokenize Demo.features
           Demo.dtm Demo.other_dtm 0 review0).
  reflexivity.
Defined.

Example demo_token_counts :
  clean_tokens Demo.tokens =
  [ "The"; "wines"; "are"; "fine"; "the"; "wines"; "is"; "wine" ]%string /\
  token_counts (clean_tokens Demo.tokens) =
  [ ("The", 1); ("are", 1); ("fine", 1); ("is", 1); ("the", 1); ("wine", 1);
    ("wines", 2) ]%string.
Proof. split; reflexivity. Qed.

Lemma token_counts_order_independent_witness :
  Permutation [ "wine"; "the"; "wine" ]%string [ "the"; "wine"; "wine" ]%string
  /\
  token_counts [ "wine"; "the"; "wine" ]%string =
  token_counts [ "the"; "wine"; "wine" ]%string.
Proof.
  assert (Hperm : Permutation [ "wine"; "the"; "wine" ]%string
                              [ "the"; "wine"; "wine" ]%string)
    by apply perm_swap.
  split; [exact Hperm |].
  exact (token_counts_order_independent _ _ Hperm).
Defined.

Lemma no_stemmed_stopword_survives_witness :
  let clean := clean_tokens Demo.tokens in
  let kept :=
    stemmed_tokens_no_stop Demo.stem Demo.stopwords
                           (stemmed_tokens Demo.stem clean) in
  kept = [ "The"; "wine"; "fine"; "wine"; "wine" ]%string /\
  Forall (fun t => contains t (stemmed_stops Demo.stem Demo.stopwords) = false)
         kept /\
  (forall word, In word Demo.stopwords -> ~ In (Demo.stem word) kept).
Proof.
  apply (no_stemmed_stopword_survives
           Demo.stem Demo.stopwords (clean_tokens Demo.tokens)).
  repeat constructor.
Defined.

(** A stemmer that is not idempotent lets a stemmed stopword out. *)
Example second_stemming_can_produce_a_stopword :
  stemmed_tokens_no_stop Demo.stem [ "is" ]%string
                         (stemmed_tokens Demo.stem [ "iss" ]%string) =
  [ "i" ]%string /\
  stemmed_stops Demo.stem [ "is" ]%string = [ "i" ]%string.
Proof. split; reflexivity. Qed.

Example demo_entities :
  extract_entities Demo.sent_tokenize Demo.word_tokenize
                   Demo.pos_tag Demo.ne_chunk
                   "Kevin and Josiah teach. They like Washington."%string =
  [ Tree "PERSON" [ ("Kevin", "NNP") ];
    Tree "PERSON" [ ("Josiah", "NNP") ];
    Tree "PERSON" [ ("They", "NNP") ];
    Tree "PERSON" [ ("Washington", "NNP") ] ]%string.
Proof. reflexivity. Qed.
